(** * headset-notify: the status prober and the transition loop

    A shallow embedding of [headset-notify.py].  The program polls
    [headsetcontrol -b], parses its text output into a reading, and sends a
    desktop notification whenever the headset goes from "battery not
    available" to "battery available" or back.

    Conventions of the embedding:
    - Python [str] is [string]; a character is a code point below 256.
    - Python [int] is [Z]; [None] is [None] of an [option].
    - [time.time()] and [psutil.cpu_percent()] return floats; they are
      modelled as rationals ([Q]), with exact subtraction and comparison.
    - every call that leaves the interpreter ([time.time], [time.sleep],
      [subprocess.run], [psutil.cpu_percent]) gets its outcome from a
      [World] record, one per loop iteration: a value or a raised exception.
    - asynchronous [KeyboardInterrupt]/[SystemExit] (the external way of
      stopping the process) are not [Exception]s and are not modelled. *)

From Stdlib Require Import String Ascii List Bool Arith ZArith QArith Lia Lqa.
From Stdlib Require Import DecimalString.
Import ListNotations.

Local Close Scope Q_scope.
Local Open Scope string_scope.

(** ** Characters and text *)

Module Text.

(** Line feed, the one character the regular expression [.] refuses. *)
Definition nl : ascii := ascii_of_nat 10.

(** [str.isspace] on code points below 256: TAB..CR, FS..US, SPACE, NEL,
    NBSP.  These are the characters [str.strip()] removes. *)
Definition is_space (c : ascii) : bool :=
  let n := nat_of_ascii c in
  ((9 <=? n)%nat && (n <=? 13)%nat) || ((28 <=? n)%nat && (n <=? 32)%nat)
  || (n =? 133)%nat || (n =? 160)%nat.

(** The regular expression class [\d] on code points below 256. *)
Definition is_digit (c : ascii) : bool :=
  let n := nat_of_ascii c in (48 <=? n)%nat && (n <=? 57)%nat.

Fixpoint all_space (s : string) : bool :=
  match s with
  | EmptyString => true
  | String c r => is_space c && all_space r
  end.

Fixpoint all_digits (s : string) : bool :=
  match s with
  | EmptyString => true
  | String c r => is_digit c && all_digits r
  end.

(** Some character of [s] is white space. *)
Fixpoint has_space (s : string) : bool :=
  match s with
  | EmptyString => false
  | String c r => is_space c || has_space r
  end.

(** [mem c s]: the character [c] occurs in [s]. *)
Fixpoint mem (c : ascii) (s : string) : bool :=
  match s with
  | EmptyString => false
  | String d r => Ascii.eqb c d || mem c r
  end.

Definition is_empty (s : string) : bool :=
  match s with EmptyString => true | String _ _ => false end.

(** [str.lstrip()], [str.rstrip()] and [str.strip()] without argument. *)
Fixpoint lstrip (s : string) : string :=
  match s with
  | EmptyString => EmptyString
  | String c r => if is_space c then lstrip r else s
  end.

Fixpoint rstrip (s : string) : string :=
  match s with
  | EmptyString => EmptyString
  | String c r =>
      let r' := rstrip r in
      if is_space c && is_empty r' then EmptyString else String c r'
  end.

Definition strip (s : string) : string := rstrip (lstrip s).

(** [strip_prefix lit s]: when [s] starts with the literal [lit], the rest
    of [s] after it. *)
Fixpoint strip_prefix (lit s : string) : option string :=
  match lit with
  | EmptyString => Some s
  | String a lit' =>
      match s with
      | EmptyString => None
      | String b s' => if Ascii.eqb a b then strip_prefix lit' s' else None
      end
  end.

(** [find_first lit s]: index of the first occurrence of [lit] in [s]
    ([str.find], with [None] for -1). *)
Fixpoint find_first (lit s : string) : option nat :=
  match strip_prefix lit s with
  | Some _ => Some O
  | None =>
      match s with
      | EmptyString => None
      | String _ s' => option_map S (find_first lit s')
      end
  end.

(** The operator [lit in s] on strings. *)
Definition occurs (lit s : string) : bool :=
  match find_first lit s with Some _ => true | None => false end.

(** ** The two regular expressions

    [re.search] tries every start position from the left and returns the
    first match.  Both patterns are a literal followed by one group and a
    closing character, so a search is: at each position, strip the literal
    and run the matcher of the rest of the pattern. *)
Fixpoint search (lit : string) (tail : string -> option string)
    (s : string) : option string :=
  match match strip_prefix lit s with
        | Some r => tail r
        | None => None
        end with
  | Some g => Some g
  | None =>
      match s with
      | EmptyString => None
      | String _ s' => search lit tail s'
      end
  end.

(** The rest of [Found (.*?)!]: the lazy [.*?] first tries to stop (the next
    character is [!]), and only otherwise lets [.] take one character that is
    not a line feed.  Returns group 1. *)
Fixpoint lazy_until_bang (s : string) : option string :=
  match s with
  | EmptyString => None
  | String c r =>
      if Ascii.eqb c "!" then Some EmptyString
      else if Ascii.eqb c nl then None
      else option_map (String c) (lazy_until_bang r)
  end.

(** [\d*%]: the greedy star first takes a digit when there is one, and falls
    back to the closing [%] otherwise. *)
Fixpoint digits_star_percent (s : string) : option string :=
  match s with
  | EmptyString => None
  | String c r =>
      if is_digit c then
        match digits_star_percent r with
        | Some ds => Some (String c ds)
        | None => if Ascii.eqb c "%" then Some EmptyString else None
        end
      else if Ascii.eqb c "%" then Some EmptyString
      else None
  end.

(** The rest of [Level: (\d+)%]: one digit, then [\d*%]. *)
Definition digits_plus_percent (s : string) : option string :=
  match s with
  | EmptyString => None
  | String c r =>
      if is_digit c then option_map (String c) (digits_star_percent r)
      else None
  end.

(** [re.search(r"Found (.*?)!", s)], as group 1 of the match. *)
Definition search_found (s : string) : option string :=
  search "Found " lazy_until_bang s.

(** [re.search(r"Level: (\d+)%", s)], as group 1 of the match. *)
Definition search_level (s : string) : option string :=
  search "Level: " digits_plus_percent s.

(** Value of a decimal digit string, most significant digit first. *)
Definition digit_value (c : ascii) : Z := (Z.of_nat (nat_of_ascii c) - 48)%Z.

Fixpoint decimal_from (acc : Z) (s : string) : Z :=
  match s with
  | EmptyString => acc
  | String c r => decimal_from (10 * acc + digit_value c)%Z r
  end.

Definition decimal (s : string) : Z := decimal_from 0%Z s.

(** [str(n)] for an integer. *)
Definition str_of_Z (n : Z) : string := NilZero.string_of_int (Z.to_int n).

Definition str_of_nat (n : nat) : string := str_of_Z (Z.of_nat n).

End Text.

Import Text.
Local Open Scope list_scope.

(** ** Exceptions, external calls and the observable trace *)

(** The exceptions the code tells apart: [check_headset] has a handler for
    [subprocess.CalledProcessError] and one for every other [Exception].
    Each carries the text [str(e)] that the log lines print. *)
Inductive exn : Type :=
| CalledProcessError (msg : string)
| OtherException (msg : string).

Definition str_of_exn (e : exn) : string :=
  match e with
  | CalledProcessError msg => msg
  | OtherException msg => msg
  end.

Inductive result (A : Type) : Type :=
| Ok (a : A)
| Raise (e : exn).
Arguments Ok {A} a.
Arguments Raise {A} e.

(** What the outside world answers during one loop iteration.  Every field
    is consulted at most once per iteration. *)
Record World : Type := {
  clock : result Q;              (* time.time() *)
  nap : result unit;             (* time.sleep(0.01), the rate-limit sleep *)
  headsetcontrol : result string;(* subprocess.run(["headsetcontrol","-b"],
                                    capture_output=True, text=True).stdout *)
  max_str_digits : nat;          (* sys.get_int_max_str_digits(); 0 = off *)
  notify_send : result unit;     (* subprocess.run(["notify-send", ...]) *)
  cpu : result Q;                (* psutil.cpu_percent(interval=None) *)
  sleep : result unit            (* time.sleep(sleep_time) *)
}.

Inductive level : Type := INFO | ERROR.

Inductive event : Type :=
| EvTime (t : Q)                        (* time.time() returned t *)
| EvRun (argv : list string)            (* subprocess.run(argv) was called *)
| EvLog (l : level) (msg : string)      (* logging.info / logging.error *)
| EvSleep (seconds : Q).                (* time.sleep(seconds) was called *)

(** ** The status prober *)

(** The tuple [(device_name, battery_level, battery_available)]. *)
Record Reading : Type := {
  device_name : option string;
  battery_level : option Z;
  battery_available : bool
}.

Definition no_reading : Reading :=
  {| device_name := None; battery_level := None; battery_available := false |}.

(** [int(ds)] on a string of decimal digits.  CPython refuses strings of
    more than [sys.get_int_max_str_digits()] digits with a [ValueError] (the
    check is skipped up to 640 digits and when the limit is 0). *)
Definition int_of_str (limit : nat) (ds : string) : result Z :=
  let n := String.length ds in
  if (640 <? n)%nat && (0 <? limit)%nat && (limit <? n)%nat then
    Raise (OtherException
      ("Exceeds the limit (" ++ str_of_nat limit
       ++ " digits) for integer string conversion: value has "
       ++ str_of_nat n
       ++ " digits; use sys.set_int_max_str_digits() to increase the limit")%string)
  else Ok (decimal ds).

(** The body of the [try] of [check_headset], on the text the command
    printed. *)
Definition parse_status (limit : nat) (stdout : string) : result Reading :=
  let output := strip stdout in
  match search_found output with
  | None => Ok no_reading
  | Some name =>
      let available := occurs "BATTERY_AVAILABLE" output in
      match search_level output with
      | None =>
          Ok {| device_name := Some name; battery_level := None;
                battery_available := available |}
      | Some ds =>
          match int_of_str limit ds with
          | Ok n =>
              Ok {| device_name := Some name; battery_level := Some n;
                    battery_available := available |}
          | Raise e => Raise e
          end
      end
  end.

Definition status_argv : list string := ["headsetcontrol"; "-b"].

Definition check_headset (w : World) : list event * Reading :=
  let attempt :=
    match headsetcontrol w with
    | Ok stdout => parse_status (max_str_digits w) stdout
    | Raise e => Raise e
    end in
  match attempt with
  | Ok r => ([EvRun status_argv], r)
  | Raise (CalledProcessError _) => ([EvRun status_argv], no_reading)
  | Raise e =>
      ([EvRun status_argv;
        EvLog ERROR ("Error checking headset: " ++ str_of_exn e)%string],
       no_reading)
  end.

(** ** Notifications *)

Definition notify_argv (title message : string) : list string :=
  ["notify-send"; "--icon=audio-headset"; "--urgency=normal"; title; message].

Definition send_notification (w : World) (title message : string)
  : list event :=
  EvRun (notify_argv title message) ::
  match notify_send w with
  | Ok _ => []
  | Raise e => [EvLog ERROR ("Error sending notification: " ++ str_of_exn e)%string]
  end.

(** ** CPU load and the adaptive sleep *)

Definition get_cpu_percent (w : World) : result Q := cpu w.

Definition adaptive_sleep (w : World) : result Q :=
  match get_cpu_percent w with
  | Raise e => Raise e
  | Ok cpu_percent =>
      if Qlt_le_dec 20 cpu_percent then Ok (1 # 2)%Q else Ok (1 # 10)%Q
  end.

(** ** The transition loop *)

(** The three variables [main] keeps from one iteration to the next. *)
Record MonitorState : Type := {
  last_available : bool;
  last_device_name : option string;
  last_check : Q
}.

Definition initial_state : MonitorState :=
  {| last_available := false; last_device_name := None; last_check := 0%Q |}.

Definition min_time_between_checks : Q := (1 # 10)%Q.

(** Formatting of a value inside an f-string. *)
Definition fmt_str (o : option string) : string :=
  match o with Some s => s | None => "None" end.

Definition fmt_int (o : option Z) : string :=
  match o with Some n => str_of_Z n | None => "None" end.

(** Truth value of a [str | None]: [None] and the empty string are false. *)
Definition truthy (o : option string) : bool :=
  match o with
  | Some s => negb (is_empty s)
  | None => false
  end.

Definition on_title : string := "Headset Turned On".
Definition off_title : string := "Headset Turned Off".

Definition on_message (name : option string) (lvl : option Z) : string :=
  ("Device: " ++ fmt_str name ++ String nl ("Battery: " ++ fmt_int lvl ++ "%"))%string.

Definition off_message (name : option string) : string :=
  ("Device '" ++ fmt_str name ++ "' powered down")%string.

(** The [if]/[elif] on the fresh reading (lines 128-139 of [main]). *)
Definition transitions (w : World) (r : Reading) (st : MonitorState)
  : list event * MonitorState :=
  if negb (last_available st) && battery_available r then
    (send_notification w on_title
       (on_message (device_name r) (battery_level r)),
     {| last_available := true;
        last_device_name := device_name r;
        last_check := last_check st |})
  else if last_available st && negb (battery_available r)
          && truthy (device_name r) then
    (send_notification w off_title (off_message (last_device_name st)),
     {| last_available := false;
        last_device_name := last_device_name st;
        last_check := last_check st |})
  else ([], st).

(** How control leaves the [try] block of one iteration. *)
Inductive flow : Type :=
| Next                 (* fell off the end of the block *)
| Continue             (* the [continue] of the rate limit *)
| Raised (e : exn).    (* an exception reached the handler of [main] *)

Definition try_block (w : World) (st : MonitorState)
  : list event * MonitorState * flow :=
  match clock w with
  | Raise e => ([], st, Raised e)
  | Ok current_time =>
      if Qlt_le_dec (current_time - last_check st) min_time_between_checks
      then
        ([EvTime current_time; EvSleep (1 # 100)%Q], st,
         match nap w with Ok _ => Continue | Raise e => Raised e end)
      else
        let '(probe_events, r) := check_headset w in
        let st1 := {| last_available := last_available st;
                      last_device_name := last_device_name st;
                      last_check := current_time |} in
        let '(notify_events, st2) := transitions w r st1 in
        (EvTime current_time :: probe_events ++ notify_events, st2, Next)
  end.

Inductive status : Type :=
| Running
| Crashed (e : exn).   (* an exception left [main] *)

(** Lines 144-145: the two statements after the [try] statement. *)
Definition sleep_step (w : World) : list event * status :=
  match adaptive_sleep w with
  | Raise e => ([], Crashed e)
  | Ok sleep_time =>
      ([EvSleep sleep_time],
       match sleep w with Ok _ => Running | Raise e => Crashed e end)
  end.

(** One pass through the body of [while True]. *)
Definition iteration (w : World) (st : MonitorState)
  : list event * MonitorState * status :=
  let '(evs, st', fl) := try_block w st in
  match fl with
  | Continue => (evs, st', Running)
  | Next =>
      let '(evs', s) := sleep_step w in (evs ++ evs', st', s)
  | Raised e =>
      let '(evs', s) := sleep_step w in
      (evs ++ EvLog ERROR ("Error in main loop: " ++ str_of_exn e)%string :: evs',
       st', s)
  end.

(** The loop, run against the answers of the world for its first
    iterations.  It stops early only when an exception leaves [main]. *)
Fixpoint run (ws : list World) (st : MonitorState)
  : list event * MonitorState * status :=
  match ws with
  | [] => ([], st, Running)
  | w :: ws' =>
      let '(evs, st', s) := iteration w st in
      match s with
      | Crashed e => (evs, st', Crashed e)
      | Running =>
          let '(evs', st'', s') := run ws' st' in (evs ++ evs', st'', s')
      end
  end.

Definition main (ws : list World) : list event * MonitorState * status :=
  let '(evs, st, s) := run ws initial_state in
  (EvLog INFO "Starting wireless headset monitor..." :: evs, st, s).

Definition trace (o : list event * MonitorState * status) : list event :=
  fst (fst o).
Definition final_state (o : list event * MonitorState * status)
  : MonitorState := snd (fst o).
Definition final_status (o : list event * MonitorState * status) : status :=
  snd o.

(** ** Observations on traces *)

(** The [(title, message)] pairs handed to [notify-send], in order. *)
Fixpoint notifications (tr : list event) : list (string * string) :=
  match tr with
  | [] => []
  | EvRun [_; _; _; title; message] :: tr' =>
      (title, message) :: notifications tr'
  | _ :: tr' => notifications tr'
  end.

(** The clock values under which the status command was run: every probe
    is stamped with the last value [time.time()] returned before it, which
    is the value the loop then stores in [last_check].  [now] is the last
    clock value seen before [tr]. *)
Fixpoint probe_times (now : Q) (tr : list event) : list Q :=
  match tr with
  | [] => []
  | EvTime t :: tr' => probe_times t tr'
  | EvRun [_; _] :: tr' => now :: probe_times now tr'
  | _ :: tr' => probe_times now tr'
  end.

(** A world in which every call returns normally. *)
Definition quiet (t : Q) (stdout : string) (load : Q) : World :=
  {| clock := Ok t; nap := Ok tt; headsetcontrol := Ok stdout;
     max_str_digits := 4300; notify_send := Ok tt; cpu := Ok load;
     sleep := Ok tt |}.

(** A world whose CPU sampling fails. *)
Definition no_cpu (t : Q) : World :=
  {| clock := Ok t; nap := Ok tt; headsetcontrol := Ok "";
     max_str_digits := 4300; notify_send := Ok tt;
     cpu := Raise (OtherException "cannot read /proc/stat");
     sleep := Ok tt |}.

(** A world whose clock fails. *)
Definition no_clock (load : Q) : World :=
  {| clock := Raise (OtherException "clock failure"); nap := Ok tt;
     headsetcontrol := Ok ""; max_str_digits := 4300; notify_send := Ok tt;
     cpu := Ok load; sleep := Ok tt |}.

(** The reading [check_headset] returns. *)
Definition probe (w : World) : Reading := snd (check_headset w).

(** ** Probe times and the rate limit *)

(** Events that neither read the clock nor run the status command. *)
Definition silent (e : event) : bool :=
  match e with
  | EvTime _ => false
  | EvRun [_; _] => false
  | _ => true
  end.

(** Probe times that keep the minimum distance: each is at least [lb], and
    the next ones are at least [min_time_between_checks] later. *)
Fixpoint spaced (lb : Q) (ts : list Q) : Prop :=
  match ts with
  | [] => True
  | t :: ts' => (lb <= t)%Q /\ spaced (t + min_time_between_checks)%Q ts'
  end.

(** [t] lies in the window that starts at [a] and is
    [min_time_between_checks] long, end excluded. *)
Definition in_window (a t : Q) : bool :=
  Qle_bool a t && negb (Qle_bool (a + min_time_between_checks)%Q t).

Definition probes_in_window (a : Q) (tr : list event) : nat :=
  length (filter (in_window a) (probe_times 0 tr)).

(** ** Sleeps and lost notifications *)

(** The durations handed to [time.sleep], in order. *)
Fixpoint sleeps (tr : list event) : list Q :=
  match tr with
  | [] => []
  | EvSleep d :: tr' => d :: sleeps tr'
  | _ :: tr' => sleeps tr'
  end.

(** The durations the loop can sleep. *)
Definition loop_duration (d : Q) : Prop :=
  d = (1 # 100)%Q \/ d = (1 # 10)%Q \/ d = (1 # 2)%Q.

(** The world [w] with another outcome for the [notify-send] call. *)
Definition with_notify_send (r : result unit) (w : World) : World :=
  {| clock := clock w; nap := nap w; headsetcontrol := headsetcontrol w;
     max_str_digits := max_str_digits w; notify_send := r; cpu := cpu w;
     sleep := sleep w |}.

(** ** Matches and handlers, for the statements *)

(** Where the leftmost match of a search starts ([Match.start()]). *)
Fixpoint match_start (lit : string) (tail : string -> option string)
    (s : string) : option nat :=
  match match strip_prefix lit s with
        | Some r => tail r
        | None => None
        end with
  | Some _ => Some O
  | None =>
      match s with
      | EmptyString => None
      | String _ s' => option_map S (match_start lit tail s')
      end
  end.

(** The outcome of the [try] body of [check_headset] (lines 29-48), before
    its two handlers: a reading, or the exception raised by running the
    command or by [int()]. *)
Definition check_headset_try (w : World) : result Reading :=
  match headsetcontrol w with
  | Ok stdout => parse_status (max_str_digits w) stdout
  | Raise e => Raise e
  end.

(** What [check_headset] logs for an exception of its [try] body: nothing
    for a [CalledProcessError] (lines 50-51), one error line otherwise
    (lines 52-53). *)
Definition check_headset_log (e : exn) : list event :=
  match e with
  | CalledProcessError _ => []
  | OtherException _ =>
      [EvLog ERROR ("Error checking headset: " ++ str_of_exn e)%string]
  end.

(** The duration [adaptive_sleep] returns for the CPU sample [c]. *)
Definition sleep_time_for (c : Q) : Q :=
  if Qlt_le_dec 20 c then (1 # 2)%Q else (1 # 10)%Q.

(** The state after line 125 of an iteration that read the clock value
    [now]. *)
Definition checked_at (now : Q) (st : MonitorState) : MonitorState :=
  {| last_available := last_available st;
     last_device_name := last_device_name st;
     last_check := now |}.

(** A world whose status command cannot be run. *)
Definition no_headsetcontrol (t : Q) (e : exn) : World :=
  {| clock := Ok t; nap := Ok tt; headsetcontrol := Raise e;
     max_str_digits := 4300; notify_send := Ok tt; cpu := Ok 0%Q;
     sleep := Ok tt |}.

(** A world whose [notify-send] cannot be run. *)
Definition no_notify_send (t : Q) (stdout : string) : World :=
  {| clock := Ok t; nap := Ok tt; headsetcontrol := Ok stdout;
     max_str_digits := 4300;
     notify_send := Raise (OtherException "No such file: notify-send");
     cpu := Ok 0%Q; sleep := Ok tt |}.

(** A world whose 10 ms sleep is cut short by an exception. *)
Definition no_nap (t : Q) : World :=
  {| clock := Ok t; nap := Raise (OtherException "sleep failed");
     headsetcontrol := Ok ""; max_str_digits := 4300; notify_send := Ok tt;
     cpu := Ok 0%Q; sleep := Ok tt |}.

(** ** Names in the notifications *)

(** The device name the loop holds for the "Turned Off" message: present
    exactly while the state is CONNECTED. *)
Definition captured (st : MonitorState) : option (option string) :=
  if last_available st then Some (last_device_name st) else None.

(** A list of notifications alternates "Turned On" and "Turned Off", and
    each "Turned Off" carries the name of the "Turned On" before it.  [cur]
    is the name captured so far, if the headset is on. *)
Fixpoint well_named (cur : option (option string))
    (ns : list (string * string)) : Prop :=
  match ns with
  | [] => True
  | (title, msg) :: ns' =>
      match cur with
      | None =>
          exists name lvl,
            title = on_title /\ msg = on_message name lvl
            /\ well_named (Some name) ns'
      | Some name =>
          title = off_title /\ msg = off_message name /\ well_named None ns'
      end
  end.

(** * Facts about the text functions *)

Module TextFacts.

Lemma append_assoc (a b c : string) :
  ((a ++ b) ++ c = a ++ (b ++ c))%string.
Proof.
  induction a as [|x a IH]; simpl; [reflexivity | now rewrite IH].
Qed.

Lemma append_nil_r (a : string) : (a ++ "")%string = a.
Proof.
  induction a as [|x a IH]; simpl; [reflexivity | now rewrite IH].
Qed.

Lemma space_not_digit c : is_space c = true -> is_digit c = false.
Proof.
  destruct c as [[] [] [] [] [] [] [] []]; vm_compute; congruence.
Qed.

Lemma space_neq c d : is_space c = true -> is_space d = false ->
  Ascii.eqb d c = false.
Proof.
  intros Hc Hd. destruct (Ascii.eqb_spec d c) as [->|]; congruence.
Qed.

Lemma all_space_app a b :
  all_space (a ++ b) = all_space a && all_space b.
Proof.
  induction a as [|x a IH]; simpl; [reflexivity|].
  now rewrite IH, andb_assoc.
Qed.

(** *** Literals *)

Lemma strip_prefix_sound lit : forall s r,
  strip_prefix lit s = Some r -> s = (lit ++ r)%string.
Proof.
  induction lit as [|a lit IH]; intros s r H; simpl in *.
  - now inversion H.
  - destruct s as [|b s]; [discriminate|].
    destruct (Ascii.eqb_spec a b) as [->|]; [|discriminate].
    now rewrite (IH _ _ H).
Qed.

Lemma strip_prefix_complete lit r : strip_prefix lit (lit ++ r) = Some r.
Proof.
  induction lit as [|a lit IH]; simpl; [reflexivity|].
  now rewrite Ascii.eqb_refl.
Qed.

Lemma strip_prefix_suffix_space lit : forall ws x,
  all_space ws = true -> strip_prefix lit ws = Some x -> all_space x = true.
Proof.
  intros ws x Hws H. apply strip_prefix_sound in H. subst ws.
  rewrite all_space_app in Hws. now apply andb_true_iff in Hws.
Qed.

(** A literal found at the head of [t ++ ws], with [ws] white space, is
    found at the head of [t] already, unless it runs into [ws]: then it
    contains white space and only white space follows it. *)
Lemma strip_prefix_app_space lit : forall t ws x,
  all_space ws = true ->
  strip_prefix lit (t ++ ws) = Some x ->
  (exists r, strip_prefix lit t = Some r /\ x = (r ++ ws)%string)
  \/ (strip_prefix lit t = None /\ all_space x = true
      /\ has_space lit = true).
Proof.
  induction lit as [|a lit IH]; intros t ws x Hws H.
  - left. exists t. simpl in *. split; congruence.
  - destruct t as [|b t].
    + right. split; [reflexivity|]. split.
      * eapply strip_prefix_suffix_space; eauto.
      * simpl in H. destruct ws as [|c ws]; [discriminate|].
        simpl in Hws. apply andb_true_iff in Hws as [Hc _].
        destruct (Ascii.eqb_spec a c) as [->|]; [|discriminate].
        simpl. now rewrite Hc.
    + simpl in *. destruct (Ascii.eqb a b); [|discriminate].
      destruct (IH _ _ _ Hws H) as [?|(?&?&Hs)]; [now left|].
      right. repeat split; trivial. rewrite Hs. apply orb_true_r.
Qed.

Lemma strip_prefix_app lit : forall t u r,
  strip_prefix lit t = Some r ->
  strip_prefix lit (t ++ u) = Some (r ++ u)%string.
Proof.
  intros t u r H. apply strip_prefix_sound in H. subst t.
  rewrite append_assoc. apply strip_prefix_complete.
Qed.

Lemma strip_prefix_space a lit ws :
  is_space a = false -> all_space ws = true ->
  strip_prefix (String a lit) ws = None.
Proof.
  intros Ha Hws. destruct ws as [|c ws]; [reflexivity|]. simpl in *.
  apply andb_true_iff in Hws as [Hc _]. now rewrite (space_neq c a).
Qed.

(** *** [strip] *)

Lemma rstrip_spec s :
  exists ws, s = (rstrip s ++ ws)%string /\ all_space ws = true.
Proof.
  induction s as [|c s (ws & Hs & Hws)]; simpl.
  - now exists EmptyString.
  - destruct (is_space c) eqn:Hc; simpl.
    + destruct (rstrip s) eqn:Hr; simpl in *.
      * exists (String c s). split; [reflexivity|].
        simpl. rewrite Hc, Hs. exact Hws.
      * exists ws. split; [now rewrite Hs at 1|exact Hws].
    + exists ws. split; [now rewrite Hs at 1|exact Hws].
Qed.

(** *** Searches and white space at both ends *)

Section Search.

Variable a : ascii.
Variable lit' : string.
Variable tail : string -> option string.
Local Abbreviation lit := (String a lit').

Hypothesis lit_head : is_space a = false.
Hypothesis tail_app : forall r ws,
  all_space ws = true -> tail (r ++ ws) = tail r.
Hypothesis tail_space : forall ws, all_space ws = true -> tail ws = None.

Lemma search_lstrip s : search lit tail (lstrip s) = search lit tail s.
Proof.
  induction s as [|c s IH]; [reflexivity|].
  simpl lstrip. destruct (is_space c) eqn:Hc; [|reflexivity].
  rewrite IH. simpl. now rewrite (space_neq c a).
Qed.

Lemma search_space ws : all_space ws = true -> search lit tail ws = None.
Proof.
  induction ws as [|c ws IH]; intros Hws; [reflexivity|].
  cbn [search]. rewrite (strip_prefix_space a lit' _ lit_head Hws).
  simpl in Hws. apply andb_true_iff in Hws as [_ Hws]. auto.
Qed.

Lemma search_app_space ws : all_space ws = true ->
  forall t, search lit tail (t ++ ws) = search lit tail t.
Proof.
  intros Hws. induction t as [|c t IH].
  - simpl append. now rewrite search_space.
  - change (String c t ++ ws)%string with (String c (t ++ ws)).
    cbn [search]. rewrite IH.
    change (String c (t ++ ws)) with (String c t ++ ws)%string.
    destruct (strip_prefix lit (String c t ++ ws)) as [x|] eqn:Hx.
    + destruct (strip_prefix_app_space _ _ _ _ Hws Hx)
        as [(r & Hr & ->)|(Hr & Hsp & _)]; rewrite Hr.
      * now rewrite tail_app.
      * now rewrite tail_space.
    + destruct (strip_prefix lit (String c t)) as [r|] eqn:Hr;
        [|reflexivity].
      rewrite (strip_prefix_app _ _ ws _ Hr) in Hx. discriminate.
Qed.

Lemma search_strip s : search lit tail (strip s) = search lit tail s.
Proof.
  unfold strip. rewrite <- (search_lstrip s).
  destruct (rstrip_spec (lstrip s)) as (ws & Hs & Hws).
  rewrite Hs at 2. now rewrite search_app_space.
Qed.

End Search.

(** A successful search found the literal, and the rest of the pattern
    right after it. *)
Lemma search_sound lit tail : forall s g,
  search lit tail s = Some g ->
  exists pre r, s = (pre ++ lit ++ r)%string /\ tail r = Some g.
Proof.
  induction s as [|c s IH]; intros g H; cbn [search] in H.
  - destruct (strip_prefix lit "") as [r|] eqn:Hr; [|discriminate].
    destruct (tail r) eqn:Ht; [|discriminate].
    exists EmptyString, r. split; [|congruence].
    simpl. now apply strip_prefix_sound.
  - destruct (strip_prefix lit (String c s)) as [r|] eqn:Hr.
    + destruct (tail r) eqn:Ht.
      * exists EmptyString, r. split; [|congruence].
        simpl. now apply strip_prefix_sound.
      * destruct (IH _ H) as (pre & r' & -> & Hg).
        now exists (String c pre), r'.
    + destruct (IH _ H) as (pre & r' & -> & Hg).
      now exists (String c pre), r'.
Qed.

(** When the rest of the pattern matches after the literal at some place
    and at no earlier one, that match is the result. *)
Lemma search_at_leftmost lit tail g : forall pre r,
  tail r = Some g ->
  (forall pre2 r2, (pre ++ lit ++ r)%string = (pre2 ++ lit ++ r2)%string ->
     tail r2 <> None -> (String.length pre <= String.length pre2)%nat) ->
  search lit tail (pre ++ lit ++ r) = Some g.
Proof.
  induction pre as [|c pre IH]; intros r Ht Hl.
  - simpl append. destruct (lit ++ r)%string eqn:E; cbn [search];
      rewrite <- E, strip_prefix_complete, Ht; reflexivity.
  - change (String c pre ++ lit ++ r)%string
      with (String c (pre ++ lit ++ r)) in *.
    assert (Rec : search lit tail (pre ++ lit ++ r) = Some g).
    { apply IH; trivial. intros pre2 r2 E H2.
      specialize (Hl (String c pre2) r2). simpl in Hl.
      rewrite E in Hl. specialize (Hl eq_refl H2). lia. }
    cbn [search].
    destruct (strip_prefix lit (String c (pre ++ lit ++ r)))
      as [r0|] eqn:Hr0; [|exact Rec].
    destruct (tail r0) eqn:Ht0; [|exact Rec].
    exfalso. apply strip_prefix_sound in Hr0.
    specialize (Hl EmptyString r0 Hr0). rewrite Ht0 in Hl.
    specialize (Hl ltac:(discriminate)). simpl in Hl. lia.
Qed.

(** No match of a search starts before [match_start]. *)
Lemma match_start_leftmost lit tail : forall s p,
  match_start lit tail s = Some p ->
  forall pre2 r2, s = (pre2 ++ lit ++ r2)%string -> tail r2 <> None ->
    (p <= String.length pre2)%nat.
Proof.
  induction s as [|c s IH]; intros p H pre2 r2 E Hr2;
    cbn [match_start] in H.
  - destruct (match strip_prefix lit "" with
              | Some r => tail r | None => None end);
      [injection H as <-; lia | discriminate].
  - destruct (match strip_prefix lit (String c s) with
              | Some r => tail r | None => None end) eqn:Hin;
      [injection H as <-; lia|].
    destruct pre2 as [|c2 pre2].
    + exfalso. simpl in E. rewrite E, strip_prefix_complete in Hin.
      congruence.
    + simpl in E. injection E as _ E.
      destruct (match_start lit tail s) as [p'|]; [|discriminate].
      injection H as <-. simpl. apply le_n_S. now apply (IH p' eq_refl pre2 r2).
Qed.

(** *** The operator [in] *)

Lemma find_first_space lit ws :
  has_space lit = false -> lit <> EmptyString -> all_space ws = true ->
  find_first lit ws = None.
Proof.
  intros Hl Hne. destruct lit as [|a lit]; [congruence|].
  simpl in Hl. apply orb_false_iff in Hl as [Ha _].
  induction ws as [|c ws IH]; intros Hws; [reflexivity|].
  cbn [find_first]. rewrite (strip_prefix_space _ _ _ Ha Hws).
  simpl in Hws. apply andb_true_iff in Hws as [_ Hws].
  now rewrite IH.
Qed.

Lemma occurs_strip lit s :
  has_space lit = false -> lit <> EmptyString ->
  occurs lit (strip s) = occurs lit s.
Proof.
  intros Hl Hne. unfold occurs, strip.
  assert (L : forall u, find_first lit (lstrip u) = None <->
                        find_first lit u = None).
  { induction u as [|c u IH]; [tauto|].
    simpl lstrip. destruct (is_space c) eqn:Hc; [|tauto].
    rewrite IH. cbn [find_first].
    destruct lit as [|a lit]; [congruence|].
    simpl in Hl. apply orb_false_iff in Hl as [Ha _].
    simpl strip_prefix. rewrite (space_neq c a) by trivial.
    destruct (find_first (String a lit) u); simpl; split; congruence. }
  assert (R : forall ws, all_space ws = true -> forall t,
            find_first lit (t ++ ws) = None <-> find_first lit t = None).
  { intros ws Hws. induction t as [|c t IH].
    - simpl append. rewrite find_first_space by trivial.
      destruct lit; [congruence|]. simpl. tauto.
    - change (String c t ++ ws)%string with (String c (t ++ ws)).
      cbn [find_first].
      change (String c (t ++ ws)) with (String c t ++ ws)%string.
      destruct (strip_prefix lit (String c t ++ ws)) as [x|] eqn:Hx.
      + destruct (strip_prefix_app_space _ _ _ _ Hws Hx)
          as [(r & Hr & _)|(_ & _ & Hsp)]; [|congruence].
        rewrite Hr. split; discriminate.
      + destruct (strip_prefix lit (String c t)) as [r|] eqn:Hr.
        * rewrite (strip_prefix_app _ _ ws _ Hr) in Hx. discriminate.
        * destruct (find_first lit (t ++ ws)), (find_first lit t);
            simpl; try tauto; destruct IH; split; intros; try discriminate;
            exfalso; intuition discriminate. }
  destruct (rstrip_spec (lstrip s)) as (ws & Hs & Hws).
  specialize (L s). rewrite Hs in L at 1.
  rewrite (R ws Hws) in L.
  destruct (find_first lit (rstrip (lstrip s))), (find_first lit s);
    trivial; destruct L; try discriminate; exfalso; intuition discriminate.
Qed.

(** *** The rest of [Found (.*?)!] *)

Lemma lazy_until_bang_sound : forall r n,
  lazy_until_bang r = Some n ->
  mem "!" n = false /\ mem nl n = false
  /\ exists post, r = (n ++ String "!" post)%string.
Proof.
  induction r as [|c r IH]; intros n H; simpl in H; [discriminate|].
  destruct (Ascii.eqb_spec c "!") as [->|Hb].
  - injection H as <-.
    split; [reflexivity|split; [reflexivity|now exists r]].
  - destruct (Ascii.eqb_spec c nl) as [->|Hn]; [discriminate|].
    destruct (lazy_until_bang r) as [m|]; [|discriminate].
    injection H as <-. destruct (IH m eq_refl) as (Hm1 & Hm2 & post & ->).
    cbn [mem append]. rewrite Hm1, Hm2.
    rewrite (proj2 (Ascii.eqb_neq "!" c)), (proj2 (Ascii.eqb_neq nl c))
      by congruence.
    split; [reflexivity|split; [reflexivity|now exists post]].
Qed.

Lemma lazy_until_bang_complete post : forall n,
  mem "!" n = false -> mem nl n = false ->
  lazy_until_bang (n ++ String "!" post) = Some n.
Proof.
  induction n as [|c n IH]; intros H1 H2; cbn [mem append] in *;
    [reflexivity|].
  cbn [lazy_until_bang].
  apply orb_false_iff in H1 as [Hb Hb'].
  apply orb_false_iff in H2 as [Hn Hn'].
  rewrite Ascii.eqb_sym, Hb, Ascii.eqb_sym, Hn, IH by trivial.
  reflexivity.
Qed.

Lemma lazy_until_bang_space ws :
  all_space ws = true -> lazy_until_bang ws = None.
Proof.
  induction ws as [|c ws IH]; intros H; [reflexivity|].
  simpl in *. apply andb_true_iff in H as [Hc H].
  rewrite Ascii.eqb_sym, (space_neq c "!") by trivial.
  rewrite IH by trivial. now destruct (Ascii.eqb c nl).
Qed.

Lemma lazy_until_bang_app_space ws : all_space ws = true ->
  forall r, lazy_until_bang (r ++ ws) = lazy_until_bang r.
Proof.
  intros Hws. induction r as [|c r IH]; simpl.
  - now apply lazy_until_bang_space.
  - now rewrite IH.
Qed.

(** *** The rest of [Level: (\d+)%] *)

Lemma digit_not_percent c : is_digit c = true -> Ascii.eqb c "%" = false.
Proof.
  intros H. destruct (Ascii.eqb_spec c "%") as [->|]; [discriminate|easy].
Qed.

Lemma digits_star_percent_sound : forall r ds,
  digits_star_percent r = Some ds ->
  all_digits ds = true /\ exists post, r = (ds ++ String "%" post)%string.
Proof.
  induction r as [|c r IH]; intros ds H; simpl in H; [discriminate|].
  destruct (is_digit c) eqn:Hd.
  - rewrite (digit_not_percent c Hd) in H.
    destruct (digits_star_percent r) as [m|]; [|discriminate].
    injection H as <-. destruct (IH m eq_refl) as (Hm & post & ->).
    simpl. rewrite Hd, Hm. split; [reflexivity|]. now exists post.
  - destruct (Ascii.eqb_spec c "%") as [->|]; [|discriminate].
    injection H as <-. split; [reflexivity|]. now exists r.
Qed.

Lemma digits_plus_percent_sound r ds :
  digits_plus_percent r = Some ds ->
  all_digits ds = true /\ ds <> EmptyString
  /\ exists post, r = (ds ++ String "%" post)%string.
Proof.
  destruct r as [|c r]; simpl; [discriminate|].
  destruct (is_digit c) eqn:Hd; [|discriminate].
  destruct (digits_star_percent r) as [m|] eqn:Hm; [|discriminate].
  intros H. injection H as <-.
  destruct (digits_star_percent_sound _ _ Hm) as (Ha & post & ->).
  simpl. rewrite Hd, Ha.
  split; [reflexivity|split; [discriminate|now exists post]].
Qed.

Lemma digits_star_percent_complete post : forall ds,
  all_digits ds = true ->
  digits_star_percent (ds ++ String "%" post) = Some ds.
Proof.
  induction ds as [|c ds IH]; intros H; simpl in *; [reflexivity|].
  apply andb_true_iff in H as [Hc H]. now rewrite Hc, IH.
Qed.

Lemma digits_plus_percent_complete post c ds :
  all_digits (String c ds) = true ->
  digits_plus_percent (String c ds ++ String "%" post) = Some (String c ds).
Proof.
  simpl. intros H. apply andb_true_iff in H as [Hc H].
  now rewrite Hc, digits_star_percent_complete.
Qed.

Lemma digits_star_percent_space ws :
  all_space ws = true -> digits_star_percent ws = None.
Proof.
  destruct ws as [|c ws]; [reflexivity|]. simpl. intros H.
  apply andb_true_iff in H as [Hc _].
  now rewrite (space_not_digit c Hc), Ascii.eqb_sym, (space_neq c "%").
Qed.

Lemma digits_star_percent_app_space ws : all_space ws = true ->
  forall r, digits_star_percent (r ++ ws) = digits_star_percent r.
Proof.
  intros Hws. induction r as [|c r IH]; simpl.
  - now apply digits_star_percent_space.
  - now rewrite IH.
Qed.

Lemma digits_plus_percent_space ws :
  all_space ws = true -> digits_plus_percent ws = None.
Proof.
  destruct ws as [|c ws]; [reflexivity|]. simpl. intros H.
  apply andb_true_iff in H as [Hc _]. now rewrite (space_not_digit c Hc).
Qed.

Lemma digits_plus_percent_app_space ws : all_space ws = true ->
  forall r, digits_plus_percent (r ++ ws) = digits_plus_percent r.
Proof.
  intros Hws [|c r]; simpl.
  - now apply digits_plus_percent_space.
  - now rewrite digits_star_percent_app_space.
Qed.

(** *** Existence of a match *)

Lemma search_complete lit tail : forall pre r,
  tail r <> None -> search lit tail (pre ++ lit ++ r) <> None.
Proof.
  induction pre as [|c pre IH]; intros r Hr.
  - simpl append. destruct (lit ++ r)%string eqn:E; cbn [search];
      rewrite <- E, strip_prefix_complete; now destruct (tail r).
  - change (String c pre ++ lit ++ r)%string
      with (String c (pre ++ lit ++ r)).
    cbn [search].
    destruct (match strip_prefix lit (String c (pre ++ lit ++ r)) with
              | Some r0 => tail r0 | None => None end);
      [discriminate | now apply IH].
Qed.

Lemma lazy_until_bang_exists post : forall n,
  mem nl n = false -> lazy_until_bang (n ++ String "!" post) <> None.
Proof.
  induction n as [|c n IH]; intros H; cbn [mem append] in *;
    [discriminate|].
  cbn [lazy_until_bang].
  apply orb_false_iff in H as [Hc H].
  destruct (Ascii.eqb c "!"); [discriminate|].
  rewrite Ascii.eqb_sym, Hc.
  specialize (IH H). now destruct (lazy_until_bang (n ++ String "!" post)).
Qed.

(** [re.search(r"Found (.*?)!", s)] fails exactly on the texts without a
    [Found <name>!] whose name stays on one line. *)
Lemma search_found_none_iff s :
  search_found s = None <->
  (forall pre name post, mem nl name = false ->
     s <> (pre ++ "Found " ++ name ++ "!" ++ post)%string).
Proof.
  split.
  - intros H pre name post Hn ->. revert H.
    apply search_complete. now apply lazy_until_bang_exists.
  - intros H. destruct (search_found s) as [n|] eqn:E; [|reflexivity].
    apply search_sound in E as (pre & r & -> & Hr).
    apply lazy_until_bang_sound in Hr as (_ & Hn & post & ->).
    now destruct (H pre n post Hn).
Qed.

(** *** Both searches see through [strip] *)

Lemma search_found_strip s : search_found (strip s) = search_found s.
Proof.
  apply search_strip; [reflexivity | |].
  - intros r ws H. now apply lazy_until_bang_app_space.
  - apply lazy_until_bang_space.
Qed.

Lemma search_level_strip s : search_level (strip s) = search_level s.
Proof.
  apply search_strip; [reflexivity | |].
  - intros r ws H. now apply digits_plus_percent_app_space.
  - apply digits_plus_percent_space.
Qed.

(** *** Decimal values *)

Lemma digit_value_range c : is_digit c = true -> (0 <= digit_value c <= 9)%Z.
Proof.
  unfold is_digit, digit_value. cbv zeta. intros H.
  apply andb_true_iff in H as [H1 H2].
  apply Nat.leb_le in H1. apply Nat.leb_le in H2. lia.
Qed.

Lemma decimal_from_nonneg : forall ds acc,
  all_digits ds = true -> (0 <= acc)%Z -> (0 <= decimal_from acc ds)%Z.
Proof.
  induction ds as [|c ds IH]; intros acc H Hacc;
    cbn [decimal_from all_digits] in *; [exact Hacc|].
  apply andb_true_iff in H as [Hc H].
  apply IH; trivial. pose proof (digit_value_range c Hc). lia.
Qed.

Lemma decimal_nonneg ds : all_digits ds = true -> (0 <= decimal ds)%Z.
Proof. intros H. now apply decimal_from_nonneg. Qed.

End TextFacts.

Import TextFacts.

(** * The status prober *)

(** C4. A status text without any [Found <name>!] (name on one line) gives
    the empty reading [(None, None, False)], whatever else it contains; the
    command is run and nothing is logged. *)
Theorem C4_no_device_announcement (w : World) (out : string) :
  headsetcontrol w = Ok out ->
  (forall pre name post, mem nl name = false ->
     out <> (pre ++ "Found " ++ name ++ "!" ++ post)%string) ->
  check_headset w = ([EvRun status_argv], no_reading)
  /\ probe w = no_reading.
Proof.
  intros Hw H. apply search_found_none_iff in H.
  unfold probe, check_headset, parse_status.
  now rewrite Hw, search_found_strip, H.
Qed.

Lemma C4_witness :
  check_headset (quiet 0 "No supported device found. BATTERY_AVAILABLE" 0)
    = ([EvRun status_argv], no_reading)
  /\ probe (quiet 0 "No supported device found. BATTERY_AVAILABLE" 0)
     = no_reading.
Proof.
  apply (C4_no_device_announcement
           (quiet 0 "No supported device found. BATTERY_AVAILABLE" 0)
           "No supported device found. BATTERY_AVAILABLE").
  - reflexivity.
  - apply search_found_none_iff. reflexivity.
Defined.

(** C9. A reading with [battery_available = True] always carries a device
    name: the test for [Found <name>!] comes first and returns the empty
    reading, and so does every exception handler. *)
Theorem C9_available_has_name (w : World) :
  battery_available (probe w) = true -> device_name (probe w) <> None.
Proof.
  unfold probe, check_headset, parse_status.
  destruct (headsetcontrol w) as [out|[m|m]]; simpl; try discriminate.
  destruct (search_found (strip out)); simpl; [|discriminate].
  destruct (search_level (strip out)); simpl; [|discriminate].
  destruct (int_of_str _ _) as [n|[m|m]]; simpl; discriminate.
Qed.

Lemma C9_witness :
  device_name
    (probe (quiet 0 "Found HyperX Cloud! Status: BATTERY_AVAILABLE" 0))
  <> None.
Proof.
  apply (C9_available_has_name
           (quiet 0 "Found HyperX Cloud! Status: BATTERY_AVAILABLE" 0)).
  reflexivity.
Defined.

(** C5 as the specification words it (a battery level is null or lies in
    0..100) fails: the pattern [\d+] takes any run of digits and the code
    does not check the range. *)
Lemma C5_counterexample :
  battery_level (probe (quiet 0 "Found X! Level: 250%" 0)) = Some 250%Z
  /\ ~ (forall w, match battery_level (probe w) with
                  | None => True
                  | Some n => (0 <= n <= 100)%Z
                  end).
Proof.
  split; [reflexivity|].
  intros H. specialize (H (quiet 0 "Found X! Level: 250%" 0)).
  vm_compute in H. destruct H as [_ H]. now apply H.
Qed.

(** C5, amended. The battery level of a reading is null or a non-negative
    integer; nothing bounds it by 100. *)
Theorem C5_battery_level_nonneg (w : World) :
  match battery_level (probe w) with
  | None => True
  | Some n => (0 <= n)%Z
  end.
Proof.
  unfold probe, check_headset, parse_status.
  destruct (headsetcontrol w) as [out|[m|m]]; simpl; trivial.
  destruct (search_found (strip out)); simpl; trivial.
  destruct (search_level (strip out)) as [ds|] eqn:E; simpl; trivial.
  unfold int_of_str.
  destruct (_ && _); simpl; trivial.
  apply search_sound in E as (pre & r & _ & Hr).
  apply digits_plus_percent_sound in Hr as (Hd & _).
  now apply decimal_nonneg.
Qed.

(** C3 as the specification words it fails: containing the three
    substrings is not enough, since each search stops at its first match. *)
Lemma C3_counterexample :
  let out := "Found Y! Found X! BATTERY_AVAILABLE Level: 57%" in
  occurs "Found X!" out = true
  /\ occurs "BATTERY_AVAILABLE" out = true
  /\ occurs "Level: 57%" out = true
  /\ probe (quiet 0 out 0)
     = {| device_name := Some "Y"; battery_level := Some 57%Z;
          battery_available := true |}
  /\ probe (quiet 0 out 0)
     <> {| device_name := Some "X"; battery_level := Some 57%Z;
           battery_available := true |}.
Proof.
  repeat split; try reflexivity. vm_compute. discriminate.
Qed.

(** The same for the battery level: an earlier [Level: <digits>%] wins. *)
Example C3_earlier_level :
  probe (quiet 0 "Found X! BATTERY_AVAILABLE Level: 5% Level: 57%" 0)
  = {| device_name := Some "X"; battery_level := Some 5%Z;
       battery_available := true |}.
Proof. reflexivity. Qed.

(** A [!] inside the name ends the lazy group early. *)
Example C3_bang_in_name :
  probe (quiet 0 "Found a!b! BATTERY_AVAILABLE Level: 57%" 0)
  = {| device_name := Some "a"; battery_level := Some 57%Z;
       battery_available := true |}.
Proof. reflexivity. Qed.

(** A text the first occurrences of the bare literals do not decide: the
    first [Level: ] is followed by no digits, so the leftmost match of
    [Level: (\d+)%] is the later one. *)
Example C3_literal_without_match :
  probe (quiet 0 "Level: x Found X! BATTERY_AVAILABLE Level: 57%" 0)
  = {| device_name := Some "X"; battery_level := Some 57%Z;
       battery_available := true |}.
Proof. reflexivity. Qed.

(** C3, amended. When the text contains [BATTERY_AVAILABLE], the leftmost
    match of [Found (.*?)!] in it is [Found X!] (the text has [Found X!]
    with [X] free of [!] and of line feeds, and no [Found <name>!] with a
    one-line name starts earlier), and the leftmost match of
    [Level: (\d+)%] in it is [Level: 57%] (no [Level: <digits>%] starts
    earlier), the reading is [(X, 57, True)]. *)
Theorem C3_leftmost_matches (w : World)
    (out pre X post pre' post' : string) :
  headsetcontrol w = Ok out ->
  out = (pre ++ "Found " ++ X ++ "!" ++ post)%string ->
  mem "!" X = false ->
  mem nl X = false ->
  (forall pre2 n2 post2, mem nl n2 = false ->
     out = (pre2 ++ "Found " ++ n2 ++ "!" ++ post2)%string ->
     (String.length pre <= String.length pre2)%nat) ->
  out = (pre' ++ "Level: " ++ "57%" ++ post')%string ->
  (forall pre2 ds2 post2, all_digits ds2 = true -> ds2 <> EmptyString ->
     out = (pre2 ++ "Level: " ++ ds2 ++ "%" ++ post2)%string ->
     (String.length pre' <= String.length pre2)%nat) ->
  occurs "BATTERY_AVAILABLE" out = true ->
  probe w = {| device_name := Some X; battery_level := Some 57%Z;
               battery_available := true |}.
Proof.
  intros Hw Hf Hb Hn Hfl Hl Hll Hocc.
  assert (F : search_found (strip out) = Some X).
  { rewrite search_found_strip. unfold search_found.
    rewrite Hf in Hfl |- *. apply search_at_leftmost.
    - now apply lazy_until_bang_complete.
    - intros pre2 r2 E H2.
      destruct (lazy_until_bang r2) as [n2|] eqn:E2; [|congruence].
      apply lazy_until_bang_sound in E2 as (_ & Hn2 & post2 & ->).
      exact (Hfl pre2 n2 post2 Hn2 E). }
  assert (L : search_level (strip out) = Some "57").
  { rewrite search_level_strip. unfold search_level.
    rewrite Hl in Hll |- *. apply search_at_leftmost; [reflexivity|].
    intros pre2 r2 E H2.
    destruct (digits_plus_percent r2) as [ds2|] eqn:E2; [|congruence].
    apply digits_plus_percent_sound in E2 as (Hd2 & Hne2 & post2 & ->).
    exact (Hll pre2 ds2 post2 Hd2 Hne2 E). }
  unfold probe, check_headset, parse_status.
  rewrite Hw, F, L, occurs_strip, Hocc by (reflexivity || discriminate).
  reflexivity.
Qed.

Lemma C3_witness :
  probe (quiet 0 "Level: x Found X! BATTERY_AVAILABLE Level: 57%" 0)
  = {| device_name := Some "X"; battery_level := Some 57%Z;
       battery_available := true |}.
Proof.
  apply (C3_leftmost_matches
           (quiet 0 "Level: x Found X! BATTERY_AVAILABLE Level: 57%" 0)
           "Level: x Found X! BATTERY_AVAILABLE Level: 57%"
           "Level: x " "X" " BATTERY_AVAILABLE Level: 57%"
           "Level: x Found X! BATTERY_AVAILABLE " "");
    try reflexivity.
  - intros pre2 n2 post2 Hn2 E.
    apply (match_start_leftmost "Found " lazy_until_bang
             "Level: x Found X! BATTERY_AVAILABLE Level: 57%" 9 eq_refl
             pre2 _ E).
    now apply lazy_until_bang_exists.
  - intros pre2 [|c ds2] post2 Hd2 Hne2 E; [congruence|].
    apply (match_start_leftmost "Level: " digits_plus_percent
             "Level: x Found X! BATTERY_AVAILABLE Level: 57%" 36 eq_refl
             pre2 _ E).
    change (String c ds2 ++ "%" ++ post2)%string
      with (String c ds2 ++ String "%" post2)%string.
    now rewrite digits_plus_percent_complete.
Defined.

(** * The transition loop *)

(** ** What each step adds to the trace *)

Lemma notifications_app tr1 tr2 :
  notifications (tr1 ++ tr2) = notifications tr1 ++ notifications tr2.
Proof.
  induction tr1 as [|e tr1 IH]; [reflexivity|].
  destruct e as [t|argv|l m|d]; simpl; trivial.
  destruct argv as [|a1 [|a2 [|a3 [|a4 [|a5 [|a6 argv]]]]]]; simpl; trivial.
  now rewrite IH.
Qed.

Lemma notifications_check_headset w :
  notifications (fst (check_headset w)) = [].
Proof.
  unfold check_headset.
  destruct (match headsetcontrol w with
            | Ok stdout => parse_status (max_str_digits w) stdout
            | Raise e => Raise e
            end) as [r|[m|m]]; reflexivity.
Qed.

Lemma notifications_send w title message :
  notifications (send_notification w title message) = [(title, message)].
Proof.
  unfold send_notification. now destruct (notify_send w).
Qed.

Lemma notifications_sleep_step w : notifications (fst (sleep_step w)) = [].
Proof.
  unfold sleep_step. now destruct (adaptive_sleep w).
Qed.

(** What one iteration notifies and how it leaves [last_available] and
    [last_device_name], when it gets as far as a fresh reading. *)
Lemma iteration_with_reading (w : World) (st : MonitorState) (now : Q) :
  clock w = Ok now ->
  (min_time_between_checks <= now - last_check st)%Q ->
  notifications (trace (iteration w st))
    = notifications (fst (transitions w (probe w) st))
  /\ last_available (final_state (iteration w st))
     = last_available (snd (transitions w (probe w) st))
  /\ last_device_name (final_state (iteration w st))
     = last_device_name (snd (transitions w (probe w) st))
  /\ last_check (final_state (iteration w st)) = now.
Proof.
  intros Hc Hlim. unfold iteration, try_block. rewrite Hc.
  destruct (Qlt_le_dec _ _) as [Hlt|_].
  { exfalso. exact (Qle_not_lt _ _ Hlim Hlt). }
  pose proof (notifications_check_headset w) as Hp. unfold probe.
  destruct (check_headset w) as [pe r]. simpl in Hp. simpl snd.
  pose proof (notifications_sleep_step w) as Hs.
  destruct (sleep_step w) as [se ss]. simpl in Hs.
  unfold transitions. simpl.
  destruct (negb (last_available st) && battery_available r); simpl.
  - rewrite !notifications_app, Hp, Hs, app_nil_r. auto.
  - destruct (last_available st && negb (battery_available r)
              && truthy (device_name r)); simpl;
      rewrite !notifications_app, Hp, Hs, app_nil_r; auto.
Qed.

(** ** Adaptive sleep *)

(** C8. With a CPU sample above 20 the loop sleeps 0.5 s, otherwise (20
    included) 0.1 s. *)
Theorem C8_adaptive_sleep (w : World) (c : Q) :
  cpu w = Ok c ->
  ((20 < c)%Q -> adaptive_sleep w = Ok (1 # 2)%Q)
  /\ ((c <= 20)%Q -> adaptive_sleep w = Ok (1 # 10)%Q).
Proof.
  intros H. unfold adaptive_sleep, get_cpu_percent. rewrite H.
  destruct (Qlt_le_dec 20 c) as [Hlt|Hle]; split; intros H'; trivial.
  - exfalso. exact (Qle_not_lt _ _ H' Hlt).
  - exfalso. exact (Qle_not_lt _ _ Hle H').
Qed.

Lemma C8_witness :
  adaptive_sleep (quiet 0 "" 25) = Ok (1 # 2)%Q
  /\ adaptive_sleep (quiet 0 "" 10) = Ok (1 # 10)%Q
  /\ adaptive_sleep (quiet 0 "" 20) = Ok (1 # 10)%Q.
Proof.
  split; [|split].
  - apply (C8_adaptive_sleep (quiet 0 "" 25) 25); reflexivity.
  - apply (C8_adaptive_sleep (quiet 0 "" 10) 10); [reflexivity|].
    discriminate.
  - apply (C8_adaptive_sleep (quiet 0 "" 20) 20); [reflexivity|].
    discriminate.
Defined.

(** ** Transitions *)

(** C1 as the specification words it fails: the guard of the [elif] is the
    truth value of [device_name], and the empty string, which is what
    [Found !] yields as a name, is not null but is false. *)
Lemma C1_counterexample :
  let st := {| last_available := true;
               last_device_name := Some "HyperX Cloud";
               last_check := 0 |} in
  let w := quiet 1 "Found !" 0 in
  probe w = {| device_name := Some ""; battery_level := None;
               battery_available := false |}
  /\ device_name (probe w) <> None
  /\ notifications (trace (iteration w st)) = []
  /\ last_available (final_state (iteration w st)) = true.
Proof.
  repeat split; try reflexivity. vm_compute. discriminate.
Qed.

(** C1, amended. In an iteration that starts CONNECTED and reads
    [battery_available = False], the "Headset Turned Off" notification
    naming [last_device_name] is sent and the state becomes DISCONNECTED
    exactly when the device name of the reading is true in the Python
    sense (neither null nor empty); otherwise nothing is sent and the state
    stays CONNECTED. *)
Theorem C1_disconnect (w : World) (st : MonitorState) (now : Q) :
  last_available st = true ->
  clock w = Ok now ->
  (min_time_between_checks <= now - last_check st)%Q ->
  battery_available (probe w) = false ->
  notifications (trace (iteration w st))
    = (if truthy (device_name (probe w))
       then [(off_title, off_message (last_device_name st))]
       else [])
  /\ last_available (final_state (iteration w st))
     = negb (truthy (device_name (probe w))).
Proof.
  intros Hst Hc Hlim Hb.
  destruct (iteration_with_reading w st now Hc Hlim) as (Hn & Ha & _).
  rewrite Hn, Ha. unfold transitions. rewrite Hst, Hb.
  cbn [negb andb]. destruct (truthy (device_name (probe w)));
    cbn [fst snd last_available negb];
    [now rewrite notifications_send | now split].
Qed.

Lemma C1_witness :
  let st := {| last_available := true;
               last_device_name := Some "HyperX Cloud";
               last_check := 0 |} in
  notifications (trace (iteration (quiet 1 "Found HyperX Cloud!" 0) st))
    = [(off_title, "Device 'HyperX Cloud' powered down")]
  /\ last_available
       (final_state (iteration (quiet 1 "Found HyperX Cloud!" 0) st))
     = false.
Proof.
  apply (C1_disconnect (quiet 1 "Found HyperX Cloud!" 0)
           {| last_available := true;
              last_device_name := Some "HyperX Cloud";
              last_check := 0 |} 1); try reflexivity.
  vm_compute. discriminate.
Defined.

(** The reading [(None, None, False)] of a failed probe leaves a CONNECTED
    loop as it is. *)
Example disconnect_without_name :
  let st := {| last_available := true;
               last_device_name := Some "HyperX Cloud";
               last_check := 0 |} in
  notifications (trace (iteration (quiet 1 "" 0) st)) = []
  /\ last_available (final_state (iteration (quiet 1 "" 0) st)) = true.
Proof. split; reflexivity. Qed.

(** C6. From DISCONNECTED, two iterations in a row that both read
    [battery_available = True] send one "Headset Turned On", in the first;
    the second sends nothing and leaves [last_available] and
    [last_device_name] alone. *)
Theorem C6_connect_once (st : MonitorState) (w1 w2 : World) (now1 now2 : Q) :
  last_available st = false ->
  clock w1 = Ok now1 ->
  (min_time_between_checks <= now1 - last_check st)%Q ->
  battery_available (probe w1) = true ->
  clock w2 = Ok now2 ->
  (min_time_between_checks <= now2 - now1)%Q ->
  battery_available (probe w2) = true ->
  let o1 := iteration w1 st in
  let o2 := iteration w2 (final_state o1) in
  notifications (trace o1)
    = [(on_title,
        on_message (device_name (probe w1)) (battery_level (probe w1)))]
  /\ notifications (trace o2) = []
  /\ notifications (trace o1 ++ trace o2) = notifications (trace o1)
  /\ last_available (final_state o1) = true
  /\ last_available (final_state o2) = true
  /\ last_device_name (final_state o1) = device_name (probe w1)
  /\ last_device_name (final_state o2) = device_name (probe w1).
Proof.
  intros Hst Hc1 Hl1 Hb1 Hc2 Hl2 Hb2 o1 o2.
  destruct (iteration_with_reading w1 st now1 Hc1 Hl1)
    as (Hn1 & Ha1 & Hd1 & Ht1).
  fold o1 in Hn1, Ha1, Hd1, Ht1.
  unfold transitions in Hn1, Ha1, Hd1. rewrite Hst, Hb1 in Hn1, Ha1, Hd1.
  cbn [negb andb fst snd last_available last_device_name] in Hn1, Ha1, Hd1.
  rewrite notifications_send in Hn1.
  assert (Hl2' : (min_time_between_checks
                  <= now2 - last_check (final_state o1))%Q)
    by now rewrite Ht1.
  destruct (iteration_with_reading w2 (final_state o1) now2 Hc2 Hl2')
    as (Hn2 & Ha2 & Hd2 & _).
  fold o2 in Hn2, Ha2, Hd2.
  unfold transitions in Hn2, Ha2, Hd2. rewrite Ha1, Hb2 in Hn2, Ha2, Hd2.
  cbn [negb andb fst snd last_available last_device_name notifications]
    in Hn2, Ha2, Hd2.
  rewrite notifications_app, Hn2, app_nil_r.
  repeat split; congruence.
Qed.

Lemma C6_witness :
  let st := initial_state in
  let w1 := quiet 1 "Found HyperX Cloud! BATTERY_AVAILABLE Level: 80%" 0 in
  let w2 := quiet 2 "Found HyperX Cloud! BATTERY_AVAILABLE Level: 79%" 0 in
  let o1 := iteration w1 st in
  let o2 := iteration w2 (final_state o1) in
  notifications (trace o1)
    = [(on_title,
        on_message (device_name (probe w1)) (battery_level (probe w1)))]
  /\ notifications (trace o2) = []
  /\ notifications (trace o1 ++ trace o2) = notifications (trace o1)
  /\ last_available (final_state o1) = true
  /\ last_available (final_state o2) = true
  /\ last_device_name (final_state o1) = device_name (probe w1)
  /\ last_device_name (final_state o2) = device_name (probe w1).
Proof.
  apply (C6_connect_once initial_state
           (quiet 1 "Found HyperX Cloud! BATTERY_AVAILABLE Level: 80%" 0)
           (quiet 2 "Found HyperX Cloud! BATTERY_AVAILABLE Level: 79%" 0)
           1 2); try reflexivity; vm_compute; discriminate.
Defined.

(** ** Rate limit *)

Lemma probe_times_silent evs : forallb silent evs = true ->
  forall t rest, probe_times t (evs ++ rest) = probe_times t rest.
Proof.
  induction evs as [|e evs IH]; intros H t rest; [reflexivity|].
  simpl in H. apply andb_true_iff in H as [He H].
  destruct e as [t'|argv|l m|d]; simpl in *; try discriminate; auto.
  destruct argv as [|a1 [|a2 [|a3 argv]]]; simpl in *;
    try discriminate; auto.
Qed.

Lemma silent_check_headset w :
  exists sil, fst (check_headset w) = EvRun status_argv :: sil
              /\ forallb silent sil = true.
Proof.
  unfold check_headset.
  destruct (match headsetcontrol w with
            | Ok stdout => parse_status (max_str_digits w) stdout
            | Raise e => Raise e
            end) as [r|[m|m]]; simpl; eauto.
Qed.

Lemma silent_transitions w r st :
  forallb silent (fst (transitions w r st)) = true.
Proof.
  unfold transitions, send_notification.
  destruct (_ && _); [now destruct (notify_send w)|].
  destruct (_ && _); [now destruct (notify_send w)|reflexivity].
Qed.

Lemma transitions_last_check w r st :
  last_check (snd (transitions w r st)) = last_check st.
Proof.
  unfold transitions. destruct (_ && _); [reflexivity|].
  now destruct (_ && _).
Qed.

Lemma silent_sleep_step w : forallb silent (fst (sleep_step w)) = true.
Proof.
  unfold sleep_step. now destruct (adaptive_sleep w).
Qed.

(** One iteration adds at most one probe time; when it adds one, that time
    becomes [last_check] and is [min_time_between_checks] after the old
    [last_check]; otherwise [last_check] stays. *)
Lemma iteration_probe_times (w : World) (st : MonitorState) :
  forall t0 rest, exists t1,
    (probe_times t0 (trace (iteration w st) ++ rest) = probe_times t1 rest
     /\ last_check (final_state (iteration w st)) = last_check st)
    \/ (probe_times t0 (trace (iteration w st) ++ rest)
          = last_check (final_state (iteration w st)) :: probe_times t1 rest
        /\ (last_check st + min_time_between_checks
            <= last_check (final_state (iteration w st)))%Q).
Proof.
  intros t0 rest. unfold iteration, try_block.
  pose proof (silent_sleep_step w) as Hs.
  destruct (sleep_step w) as [se ss]. simpl in Hs.
  destruct (clock w) as [now|e].
  - destruct (Qlt_le_dec _ _) as [Hlt|Hle].
    + exists now. left. unfold trace, final_state.
      destruct (nap w) as [u|e]; simpl; split; trivial.
      now apply probe_times_silent.
    + destruct (silent_check_headset w) as (sil & Hp & Hsil).
      pose proof (silent_transitions w (snd (check_headset w))
        {| last_available := last_available st;
           last_device_name := last_device_name st;
           last_check := now |}) as Hn.
      pose proof (transitions_last_check w (snd (check_headset w))
        {| last_available := last_available st;
           last_device_name := last_device_name st;
           last_check := now |}) as Hl.
      destruct (check_headset w) as [pe r]. simpl in Hp, Hn, Hl. subst pe.
      destruct (transitions _ _ _) as [ne st2]. simpl in Hn, Hl.
      exists now. right. unfold trace, final_state. simpl. rewrite Hl. split.
      * f_equal. rewrite <- !app_assoc.
        now rewrite !probe_times_silent.
      * unfold min_time_between_checks in *. lra.
  - exists t0. left. unfold trace, final_state. simpl. split; trivial.
    now apply probe_times_silent.
Qed.

Lemma run_spaced : forall ws st t0,
  spaced (last_check st + min_time_between_checks)%Q
    (probe_times t0 (trace (run ws st))).
Proof.
  induction ws as [|w ws IH]; intros st t0; [exact I|].
  cbn [run].
  destruct (iteration_probe_times w st t0 (trace (run ws
              (final_state (iteration w st))))) as (t1 & H).
  destruct (iteration_probe_times w st t0 []) as (t1' & H').
  rewrite app_nil_r in H'.
  destruct (iteration w st) as [[evs st'] s]. unfold trace, final_state in *.
  simpl in H, H'.
  destruct s as [|e].
  - specialize (IH st'). destruct (run ws st') as [[evs' st''] s'].
    simpl in *. destruct H as [[-> Hl]|[-> Hl]].
    + rewrite <- Hl. apply IH.
    + split; [exact Hl | apply IH].
  - simpl. destruct H' as [[-> _]|[-> Hl]]; simpl; auto.
Qed.

Lemma spaced_beyond a : forall ts lb,
  (a + min_time_between_checks <= lb)%Q -> spaced lb ts ->
  filter (in_window a) ts = [].
Proof.
  induction ts as [|t ts IH]; intros lb Hlb Hs; [reflexivity|].
  destruct Hs as [Ht Hs]. simpl.
  assert (E : in_window a t = false).
  { unfold in_window. apply andb_false_iff. right.
    apply negb_false_iff, Qle_bool_iff. now apply Qle_trans with lb. }
  rewrite E. apply (IH (t + min_time_between_checks)%Q); trivial.
  unfold min_time_between_checks in *. lra.
Qed.

Lemma spaced_window a : forall ts lb,
  spaced lb ts -> (length (filter (in_window a) ts) <= 1)%nat.
Proof.
  induction ts as [|t ts IH]; intros lb Hs; simpl; [lia|].
  destruct Hs as [Ht Hs].
  destruct (in_window a t) eqn:E; [|now apply IH in Hs].
  assert (F : filter (in_window a) ts = []).
  { apply (spaced_beyond a ts (t + min_time_between_checks)%Q); trivial.
    unfold in_window in E. apply andb_true_iff in E as [E _].
    apply Qle_bool_iff in E. unfold min_time_between_checks. lra. }
  rewrite F. simpl. lia.
Qed.

(** C7 as the specification words it fails for an iteration whose 10 ms
    sleep raises: the exception goes to the handler of [main], is logged,
    and the adaptive sleep follows. *)
Lemma C7_counterexample :
  let st := {| last_available := true; last_device_name := Some "X";
               last_check := 1000 |} in
  clock (no_nap (100005 # 100)) = Ok (100005 # 100)%Q
  /\ ((100005 # 100) - last_check st < min_time_between_checks)%Q
  /\ iteration (no_nap (100005 # 100)) st
     = ([EvTime (100005 # 100); EvSleep (1 # 100)%Q;
         EvLog ERROR "Error in main loop: sleep failed";
         EvSleep (1 # 10)%Q],
        st, Running)
  /\ iteration (no_nap (100005 # 100)) st
     <> ([EvTime (100005 # 100); EvSleep (1 # 100)%Q], st, Running).
Proof.
  repeat split; try reflexivity. vm_compute. discriminate.
Qed.

(** C7, amended. An iteration that starts less than 0.1 s after
    [last_check] runs no status command, notifies nothing and leaves the
    state untouched.  When its 10 ms sleep returns, that sleep is all it
    does: the loop goes back to the top without the adaptive sleep.  When
    the 10 ms sleep raises, the exception is logged and the statements
    after the [try] run.  In any run of [main], the clock values under
    which the status command was run are at least 0.1 s apart: every window
    of 0.1 s holds at most one. *)
Theorem C7_rate_limit (w : World) (st : MonitorState) (now : Q)
    (ws : list World) (a : Q) :
  clock w = Ok now ->
  (now - last_check st < min_time_between_checks)%Q ->
  (nap w = Ok tt ->
   iteration w st = ([EvTime now; EvSleep (1 # 100)%Q], st, Running))
  /\ (forall e, nap w = Raise e ->
      iteration w st
      = ([EvTime now; EvSleep (1 # 100)%Q;
          EvLog ERROR ("Error in main loop: " ++ str_of_exn e)%string]
         ++ fst (sleep_step w),
         st, snd (sleep_step w)))
  /\ final_state (iteration w st) = st
  /\ probe_times now (trace (iteration w st)) = []
  /\ notifications (trace (iteration w st)) = []
  /\ (probes_in_window a (trace (main ws)) <= 1)%nat.
Proof.
  intros Hc Hlt.
  assert (I : iteration w st
              = match nap w with
                | Ok _ => ([EvTime now; EvSleep (1 # 100)%Q], st, Running)
                | Raise e =>
                    ([EvTime now; EvSleep (1 # 100)%Q;
                      EvLog ERROR
                        ("Error in main loop: " ++ str_of_exn e)%string]
                     ++ fst (sleep_step w),
                     st, snd (sleep_step w))
                end).
  { unfold iteration, try_block. rewrite Hc.
    destruct (Qlt_le_dec _ _) as [_|Hle];
      [|exfalso; exact (Qle_not_lt _ _ Hle Hlt)].
    destruct (nap w); [reflexivity|]. now destruct (sleep_step w). }
  pose proof (notifications_sleep_step w) as Hn.
  pose proof (silent_sleep_step w) as Hs.
  rewrite I. split; [|split; [|split; [|split; [|split]]]].
  - now intros ->.
  - now intros e ->.
  - now destruct (nap w).
  - destruct (nap w); [reflexivity|]. unfold trace. simpl.
    rewrite <- (app_nil_r (fst (sleep_step w))).
    now rewrite probe_times_silent.
  - destruct (nap w); [reflexivity|]. unfold trace. simpl. exact Hn.
  - unfold probes_in_window, main.
    pose proof (run_spaced ws initial_state 0) as H.
    destruct (run ws initial_state) as [[evs st'] s].
    unfold trace in *. simpl in *. exact (spaced_window a _ _ H).
Qed.

Lemma C7_witness :
  let st := {| last_available := true; last_device_name := Some "X";
               last_check := 1000 |} in
  iteration (quiet (100005 # 100) "Found X! BATTERY_AVAILABLE" 0) st
    = ([EvTime (100005 # 100); EvSleep (1 # 100)%Q], st, Running)
  /\ (probes_in_window 1000
        (trace (main [quiet 1000 "" 0; quiet (100005 # 100) "" 0;
                      quiet (10001 # 10) "" 0])) <= 1)%nat.
Proof.
  destruct (C7_rate_limit
              (quiet (100005 # 100) "Found X! BATTERY_AVAILABLE" 0)
              {| last_available := true; last_device_name := Some "X";
                 last_check := 1000 |} (100005 # 100)
              [quiet 1000 "" 0; quiet (100005 # 100) "" 0;
               quiet (10001 # 10) "" 0] 1000 eq_refl eq_refl)
    as (H1 & _ & _ & _ & _ & H6).
  split; [exact (H1 eq_refl)|exact H6].
Defined.

(** The probes of that run: one at 1000, none at 1000.05, one at 1000.1. *)
Example rate_limited_run :
  probe_times 0 (trace (main [quiet 1000 "" 0; quiet (100005 # 100) "" 0;
                              quiet (10001 # 10) "" 0]))
  = [1000%Q; (10001 # 10)%Q].
Proof. reflexivity. Qed.

(** ** Exceptions in the loop *)

(** C2 as the specification words it fails: [adaptive_sleep()] and
    [time.sleep(sleep_time)] stand after the [try] statement, so an
    exception raised there leaves [main] and ends the loop; the second
    iteration below never runs. *)
Lemma C2_counterexample :
  iteration (no_cpu 1000) initial_state
    = ([EvTime 1000; EvRun status_argv],
       {| last_available := false; last_device_name := None;
          last_check := 1000 |},
       Crashed (OtherException "cannot read /proc/stat"))
  /\ main [no_cpu 1000; quiet 1001 "" 0]
     = ([EvLog INFO "Starting wireless headset monitor...";
         EvTime 1000; EvRun status_argv],
        {| last_available := false; last_device_name := None;
           last_check := 1000 |},
        Crashed (OtherException "cannot read /proc/stat"))
  /\ ~ (forall w st, final_status (iteration w st) = Running).
Proof.
  split; [reflexivity|]. split; [reflexivity|].
  intros H. specialize (H (no_cpu 1000) initial_state). discriminate H.
Qed.

Lemma iteration_running (w : World) (st : MonitorState) (c : Q) :
  cpu w = Ok c -> sleep w = Ok tt ->
  final_status (iteration w st) = Running.
Proof.
  intros Hc Hs. unfold iteration, sleep_step, adaptive_sleep, get_cpu_percent.
  rewrite Hc, Hs.
  destruct (try_block w st) as [[evs st'] [| |e]];
    now destruct (Qlt_le_dec 20 c).
Qed.

Lemma run_running : forall ws st,
  (forall w, In w ws -> (exists c, cpu w = Ok c) /\ sleep w = Ok tt) ->
  final_status (run ws st) = Running.
Proof.
  induction ws as [|w ws IH]; intros st H; [reflexivity|].
  cbn [run].
  destruct (H w (or_introl eq_refl)) as [[c Hc] Hs].
  pose proof (iteration_running w st c Hc Hs) as Hr.
  destruct (iteration w st) as [[evs st'] s]. unfold final_status in Hr.
  simpl in Hr. subst s.
  specialize (IH st' (fun w' Hin => H w' (or_intror Hin))).
  destruct (run ws st') as [[evs' st''] s']. exact IH.
Qed.

(** C2, amended. As long as the CPU sampling and the sleep that follow
    the [try] statement return normally, every exception raised inside the
    [try] block is caught and the iteration goes on to the adaptive sleep:
    - one raised by the clock read or by the 10 ms sleep reaches the handler
      of [main] and is logged as [Error in main loop];
    - one raised in [check_headset] (by running the status command or by
      [int()]) is caught there, logged as [Error checking headset] unless it
      is a [CalledProcessError], which leaves no log line, and read as
      [(None, None, False)];
    - one raised by [notify-send] is caught in [send_notification] and
      logged as [Error sending notification], and the transition is done
      all the same.
    Under the same condition on every iteration, no exception ends the
    loop. *)
Theorem C2_exceptions_are_caught (w : World) (st : MonitorState) (c : Q)
    (ws : list World) (st0 : MonitorState) :
  cpu w = Ok c ->
  sleep w = Ok tt ->
  (forall w', In w' ws -> (exists c', cpu w' = Ok c') /\ sleep w' = Ok tt) ->
  (forall evs st' e, try_block w st = (evs, st', Raised e) ->
     iteration w st
     = (evs ++ [EvLog ERROR ("Error in main loop: " ++ str_of_exn e)%string;
                EvSleep (sleep_time_for c)],
        st', Running))
  /\ (forall e, clock w = Raise e ->
      iteration w st
      = ([EvLog ERROR ("Error in main loop: " ++ str_of_exn e)%string;
          EvSleep (sleep_time_for c)],
         st, Running))
  /\ (forall now e, clock w = Ok now ->
      (now - last_check st < min_time_between_checks)%Q ->
      nap w = Raise e ->
      iteration w st
      = ([EvTime now; EvSleep (1 # 100)%Q;
          EvLog ERROR ("Error in main loop: " ++ str_of_exn e)%string;
          EvSleep (sleep_time_for c)],
         st, Running))
  /\ (forall now e, clock w = Ok now ->
      (min_time_between_checks <= now - last_check st)%Q ->
      check_headset_try w = Raise e ->
      probe w = no_reading
      /\ iteration w st
         = (EvTime now :: EvRun status_argv :: check_headset_log e
            ++ [EvSleep (sleep_time_for c)],
            checked_at now st, Running))
  /\ (forall now e, clock w = Ok now ->
      (min_time_between_checks <= now - last_check st)%Q ->
      notify_send w = Raise e ->
      iteration w st
      = (EvTime now :: fst (check_headset w)
         ++ fst (transitions w (probe w) (checked_at now st))
         ++ [EvSleep (sleep_time_for c)],
         snd (transitions w (probe w) (checked_at now st)), Running)
      /\ (fst (transitions w (probe w) (checked_at now st)) = []
          \/ exists title message,
               fst (transitions w (probe w) (checked_at now st))
               = [EvRun (notify_argv title message);
                  EvLog ERROR ("Error sending notification: "
                               ++ str_of_exn e)%string]))
  /\ final_status (iteration w st) = Running
  /\ final_status (run ws st0) = Running.
Proof.
  intros Hc Hs Hws.
  assert (S : sleep_step w = ([EvSleep (sleep_time_for c)], Running)).
  { unfold sleep_step, adaptive_sleep, get_cpu_percent, sleep_time_for.
    rewrite Hc, Hs. now destruct (Qlt_le_dec 20 c). }
  assert (P : forall now,
            (min_time_between_checks <= now - last_check st)%Q ->
            clock w = Ok now ->
            iteration w st
            = (EvTime now :: fst (check_headset w)
               ++ fst (transitions w (probe w) (checked_at now st))
               ++ [EvSleep (sleep_time_for c)],
               snd (transitions w (probe w) (checked_at now st)), Running)).
  { intros now Hle Hn. unfold iteration, try_block. rewrite Hn, S.
    destruct (Qlt_le_dec _ _) as [Hlt|_];
      [exfalso; exact (Qle_not_lt _ _ Hle Hlt)|].
    unfold probe, checked_at. destruct (check_headset w) as [pe r].
    cbn [fst snd]. destruct (transitions _ _ _) as [ne st2].
    simpl. now rewrite <- app_assoc. }
  split; [|split; [|split; [|split; [|split; [|split]]]]].
  - intros evs st' e Ht. unfold iteration. now rewrite Ht, S.
  - intros e He. unfold iteration, try_block. now rewrite He, S.
  - intros now e Hn Hlt He. unfold iteration, try_block. rewrite Hn, He, S.
    destruct (Qlt_le_dec _ _) as [_|Hle]; [reflexivity|].
    exfalso. exact (Qle_not_lt _ _ Hle Hlt).
  - intros now e Hn Hle He.
    assert (C : check_headset w
                = (EvRun status_argv :: check_headset_log e, no_reading)).
    { unfold check_headset_try in He. unfold check_headset.
      cbv zeta. rewrite He. now destruct e. }
    assert (R : probe w = no_reading) by (unfold probe; now rewrite C).
    split; [exact R|].
    rewrite (P now Hle Hn), R, C. unfold transitions, checked_at.
    cbn [fst snd no_reading battery_available device_name truthy
         last_available].
    rewrite andb_false_r. cbn [negb andb]. rewrite andb_false_r.
    cbn [fst snd]. reflexivity.
  - intros now e Hn Hle He. split; [exact (P now Hle Hn)|].
    unfold transitions, send_notification. rewrite He.
    destruct (_ && _); cbn [fst]; [right; eauto|].
    destruct (_ && _); cbn [fst]; [right; eauto|now left].
  - now apply (iteration_running w st c).
  - now apply run_running.
Qed.

Lemma C2_witness :
  iteration (no_clock 30) initial_state
    = ([EvLog ERROR "Error in main loop: clock failure";
        EvSleep (1 # 2)%Q],
       initial_state, Running)
  /\ iteration
       (no_headsetcontrol 1 (CalledProcessError "exit status 1"))
       {| last_available := true; last_device_name := Some "A";
          last_check := 0 |}
     = ([EvTime 1; EvRun status_argv; EvSleep (1 # 10)%Q],
        {| last_available := true; last_device_name := Some "A";
           last_check := 1 |}, Running)
  /\ iteration (no_notify_send 1 "Found A! BATTERY_AVAILABLE")
       initial_state
     = ([EvTime 1; EvRun status_argv;
         EvRun (notify_argv on_title (on_message (Some "A") None));
         EvLog ERROR
           "Error sending notification: No such file: notify-send";
         EvSleep (1 # 10)%Q],
        {| last_available := true; last_device_name := Some "A";
           last_check := 1 |}, Running)
  /\ final_status
       (run [no_clock 30; no_nap 1;
             no_headsetcontrol 2 (OtherException "No such file");
             no_notify_send 3 "Found A! BATTERY_AVAILABLE"]
          initial_state) = Running.
Proof.
  assert (Q0 : forall w', In w' [no_clock 30; no_nap 1;
                  no_headsetcontrol 2 (OtherException "No such file");
                  no_notify_send 3 "Found A! BATTERY_AVAILABLE"] ->
                (exists c', cpu w' = Ok c') /\ sleep w' = Ok tt).
  { intros w' [<-|[<-|[<-|[<-|[]]]]]; (split; [eexists|]; reflexivity). }
  split; [|split; [|split]].
  - destruct (C2_exceptions_are_caught (no_clock 30) initial_state 30
                [] initial_state eq_refl eq_refl)
      as (_ & H & _); [intros w' []|].
    exact (H (OtherException "clock failure") eq_refl).
  - destruct (C2_exceptions_are_caught
                (no_headsetcontrol 1 (CalledProcessError "exit status 1"))
                {| last_available := true; last_device_name := Some "A";
                   last_check := 0 |} 0 [] initial_state eq_refl eq_refl)
      as (_ & _ & _ & H & _); [intros w' []|].
    refine (proj2 (H 1%Q (CalledProcessError "exit status 1")
                     eq_refl _ eq_refl)).
    vm_compute. discriminate.
  - destruct (C2_exceptions_are_caught
                (no_notify_send 1 "Found A! BATTERY_AVAILABLE")
                initial_state 0 [] initial_state eq_refl eq_refl)
      as (_ & _ & _ & _ & H & _); [intros w' []|].
    refine (proj1 (H 1%Q (OtherException "No such file: notify-send")
                     eq_refl _ eq_refl)).
    vm_compute. discriminate.
  - exact (proj2 (proj2 (proj2 (proj2 (proj2 (proj2
             (C2_exceptions_are_caught (no_clock 30) initial_state 30
                [no_clock 30; no_nap 1;
                 no_headsetcontrol 2 (OtherException "No such file");
                 no_notify_send 3 "Found A! BATTERY_AVAILABLE"]
                initial_state eq_refl eq_refl Q0))))))).
Defined.

(** ** Names in the notifications *)

Lemma iteration_notifications (w : World) (st : MonitorState) :
  let o := iteration w st in
  (notifications (trace o) = [] /\ captured (final_state o) = captured st)
  \/ (captured st = None /\ exists name lvl,
        notifications (trace o) = [(on_title, on_message name lvl)]
        /\ captured (final_state o) = Some name)
  \/ (exists name, captured st = Some name
        /\ notifications (trace o) = [(off_title, off_message name)]
        /\ captured (final_state o) = None).
Proof.
  intros o. subst o. destruct (clock w) as [now|e] eqn:Hc.
  - destruct (Qlt_le_dec (now - last_check st) min_time_between_checks)
      as [Hlt|Hle].
    + left. unfold iteration, try_block. rewrite Hc.
      destruct (Qlt_le_dec _ _) as [_|Hle];
        [|exfalso; exact (Qle_not_lt _ _ Hle Hlt)].
      pose proof (notifications_sleep_step w) as Hs.
      destruct (sleep_step w) as [se ss]. simpl in Hs.
      destruct (nap w); unfold trace, final_state; simpl; auto.
    + destruct (iteration_with_reading w st now Hc Hle)
        as (Hn & Ha & Hd & _).
      unfold captured. rewrite Hn, Ha, Hd. unfold transitions.
      destruct (last_available st) eqn:Hla; cbn [negb andb].
      * destruct (negb (battery_available (probe w))
                  && truthy (device_name (probe w)));
          cbn [fst snd last_available last_device_name].
        -- right. right. exists (last_device_name st).
           now rewrite notifications_send.
        -- left. now rewrite Hla.
      * destruct (battery_available (probe w));
          cbn [fst snd last_available last_device_name].
        -- right. left. split; [reflexivity|].
           exists (device_name (probe w)), (battery_level (probe w)).
           now rewrite notifications_send.
        -- left. now rewrite Hla.
  - left. unfold iteration, try_block. rewrite Hc.
    pose proof (notifications_sleep_step w) as Hs.
    destruct (sleep_step w) as [se ss]. simpl in Hs.
    unfold trace, final_state; simpl; auto.
Qed.

Lemma run_well_named : forall ws st,
  well_named (captured st) (notifications (trace (run ws st))).
Proof.
  induction ws as [|w ws IH]; intros st; [exact I|].
  cbn [run]. pose proof (iteration_notifications w st) as H.
  destruct (iteration w st) as [[evs st'] s].
  unfold trace, final_state in *. simpl in H.
  assert (G : forall ns, well_named (captured st') ns ->
                         well_named (captured st) (notifications evs ++ ns)).
  { intros ns Hns.
    destruct H as [[-> <-]|[(Hst & name & lvl & -> & Hst')
                           |(name & Hst & -> & Hst')]].
    - exact Hns.
    - rewrite Hst. simpl. exists name, lvl. now rewrite <- Hst'.
    - rewrite Hst. simpl. now rewrite <- Hst'. }
  destruct s as [|e].
  - specialize (IH st'). destruct (run ws st') as [[evs' st''] s'].
    simpl in *. rewrite notifications_app. now apply G.
  - simpl. rewrite <- (app_nil_r (notifications evs)). now apply G.
Qed.

Lemma well_named_off msg post : forall pre cur,
  well_named cur (pre ++ (off_title, msg) :: post) ->
  (pre = [] /\ exists name, cur = Some name /\ msg = off_message name)
  \/ (exists pre' name lvl,
        pre = pre' ++ [(on_title, on_message name lvl)]
        /\ msg = off_message name).
Proof.
  induction pre as [|[t m] pre IH]; intros cur H.
  - left. split; [reflexivity|]. simpl in H. destruct cur as [name|].
    + exists name. now destruct H as (_ & -> & _).
    + destruct H as (name & lvl & Ht & _). discriminate Ht.
  - right. simpl in H. destruct cur as [name|].
    + destruct H as (_ & _ & H).
      destruct (IH _ H) as [(_ & n & Hn & _)|(pre' & n & lvl & -> & ->)];
        [discriminate|].
      now exists ((t, m) :: pre'), n, lvl.
    + destruct H as (name & lvl & -> & -> & H).
      destruct (IH _ H) as [(-> & n & Hn & ->)|(pre' & n & l & -> & ->)].
      * injection Hn as <-. now exists [], name, lvl.
      * now exists ((on_title, on_message name lvl) :: pre'), n, l.
Qed.

(** C10. The disconnect branch only clears [last_available]: it leaves
    [last_device_name] and [last_check] as they are and sends the message
    built from [last_device_name].  Since that variable is written by the
    connect branch alone, every "Headset Turned Off" of a run of [main]
    comes right after a "Headset Turned On" in the list of notifications
    and names the same device. *)
Theorem C10_off_names_last_on (w : World) (r : Reading) (st : MonitorState)
    (ws : list World) (pre post : list (string * string)) (msg : string) :
  last_available st = true ->
  battery_available r = false ->
  truthy (device_name r) = true ->
  notifications (trace (main ws)) = pre ++ (off_title, msg) :: post ->
  transitions w r st
    = (send_notification w off_title (off_message (last_device_name st)),
       {| last_available := false;
          last_device_name := last_device_name st;
          last_check := last_check st |})
  /\ exists pre' name lvl,
       pre = pre' ++ [(on_title, on_message name lvl)]
       /\ msg = off_message name.
Proof.
  intros Hst Hb Hd Hns. split.
  - unfold transitions. now rewrite Hst, Hb, Hd.
  - pose proof (run_well_named ws initial_state) as H.
    unfold main in Hns. destruct (run ws initial_state) as [[evs st'] s].
    unfold trace in *. simpl in Hns, H. rewrite Hns in H.
    apply well_named_off in H as [(_ & n & Hn & _)|H];
      [discriminate|exact H].
Qed.

Lemma C10_witness :
  let st := {| last_available := true; last_device_name := Some "A";
               last_check := 5 |} in
  let r := {| device_name := Some "B"; battery_level := None;
              battery_available := false |} in
  transitions (quiet 0 "" 0) r st
    = (send_notification (quiet 0 "" 0) off_title (off_message (Some "A")),
       {| last_available := false; last_device_name := Some "A";
          last_check := 5 |})
  /\ exists pre' name lvl,
       [(on_title, on_message (Some "A") (Some 80%Z))]
         = pre' ++ [(on_title, on_message name lvl)]
       /\ off_message (Some "A") = off_message name.
Proof.
  apply (C10_off_names_last_on (quiet 0 "" 0)
           {| device_name := Some "B"; battery_level := None;
              battery_available := false |}
           {| last_available := true; last_device_name := Some "A";
              last_check := 5 |}
           [quiet 1 "Found A! BATTERY_AVAILABLE Level: 80%" 0;
            quiet 2 "Found B!" 0]
           [(on_title, on_message (Some "A") (Some 80%Z))] []
           (off_message (Some "A"))); reflexivity.
Defined.

(** A whole session: on, off under another announced name, on again. *)
Example flapping :
  notifications
    (trace (main [quiet 1 "Found A! BATTERY_AVAILABLE Level: 80%" 0;
                  quiet 2 "Found B!" 0;
                  quiet 3 "Found B! BATTERY_AVAILABLE" 30]))
  = [(on_title, on_message (Some "A") (Some 80%Z));
     (off_title, off_message (Some "A"));
     (on_title, on_message (Some "B") None)].
Proof. reflexivity. Qed.

(** * Further properties of the prober *)

(** The match a search returns is the leftmost one. *)
Lemma search_leftmost lit tail : forall s g,
  search lit tail s = Some g ->
  exists pre r,
    s = (pre ++ lit ++ r)%string /\ tail r = Some g
    /\ forall pre2 r2, s = (pre2 ++ lit ++ r2)%string -> tail r2 <> None ->
         (String.length pre <= String.length pre2)%nat.
Proof.
  assert (Z0 : forall s r2, s = (lit ++ r2)%string -> tail r2 <> None ->
            match strip_prefix lit s with
            | Some r => tail r | None => None end <> None).
  { intros s r2 -> H. now rewrite strip_prefix_complete. }
  induction s as [|c s IH]; intros g H; cbn [search] in H.
  - destruct (strip_prefix lit "") as [r|] eqn:Hr; [|discriminate].
    destruct (tail r) eqn:Ht; [|discriminate].
    exists EmptyString, r. split; [simpl; now apply strip_prefix_sound|].
    split; [congruence|]. intros; simpl; lia.
  - destruct (match strip_prefix lit (String c s) with
              | Some r => tail r | None => None end) as [g'|] eqn:Hin.
    + destruct (strip_prefix lit (String c s)) as [r|] eqn:Hr;
        [|discriminate].
      exists EmptyString, r. split; [simpl; now apply strip_prefix_sound|].
      split; [congruence|]. intros; simpl; lia.
    + destruct (IH _ H) as (pre & r & -> & Hg & Hleft).
      exists (String c pre), r. split; [reflexivity|]. split; [exact Hg|].
      intros [|c2 pre2] r2 E Hr2.
      * exfalso. simpl in E. apply (Z0 _ _ E Hr2). exact Hin.
      * simpl in E. injection E as _ E. simpl.
        apply le_n_S. now apply (Hleft pre2 r2).
Qed.

Lemma probe_fields (w : World) (out : string) :
  headsetcontrol w = Ok out ->
  probe w = no_reading
  \/ (exists n, search_found out = Some n
        /\ device_name (probe w) = Some n
        /\ battery_available (probe w) = occurs "BATTERY_AVAILABLE" out
        /\ battery_level (probe w)
           = option_map decimal (search_level out)
        /\ fst (check_headset w) = [EvRun status_argv]).
Proof.
  intros Hw. unfold probe, check_headset, parse_status.
  rewrite Hw, search_found_strip, search_level_strip, occurs_strip
    by (reflexivity || discriminate).
  destruct (search_found out) as [n|]; [|now left].
  destruct (search_level out) as [ds|]; simpl.
  - unfold int_of_str. destruct (_ && _); simpl; [now left|].
    right. now exists n.
  - right. now exists n.
Qed.

(** X1. The device name of a reading is group 1 of the leftmost
    [Found <name>!] of the output: the output has [Found n!] at some
    place, [n] has no [!] and no line feed (the lazy group stops at the
    first [!]), and no [Found <name>!] with a one-line name starts
    earlier. *)
Theorem probe_name_leftmost (w : World) (out n : string) :
  headsetcontrol w = Ok out ->
  device_name (probe w) = Some n ->
  exists pre post,
    out = (pre ++ "Found " ++ n ++ "!" ++ post)%string
    /\ mem "!" n = false /\ mem nl n = false
    /\ forall pre2 n2 post2, mem nl n2 = false ->
         out = (pre2 ++ "Found " ++ n2 ++ "!" ++ post2)%string ->
         (String.length pre <= String.length pre2)%nat.
Proof.
  intros Hw Hn.
  destruct (probe_fields w out Hw) as [E|(n' & Hs & Hd & _)].
  { rewrite E in Hn. discriminate. }
  rewrite Hd in Hn. injection Hn as ->.
  apply search_leftmost in Hs as (pre & r & -> & Hr & Hleft).
  apply lazy_until_bang_sound in Hr as (Hb & Hnl & post & ->).
  exists pre, post. repeat split; trivial.
  intros pre2 n2 post2 Hn2 E. apply (Hleft pre2 _ E).
  now apply lazy_until_bang_exists.
Qed.

Lemma probe_name_leftmost_witness :
  exists pre post,
    "Found A! Found B!"
      = (pre ++ "Found " ++ "A" ++ "!" ++ post)%string
    /\ mem "!" "A" = false /\ mem nl "A" = false
    /\ forall pre2 n2 post2, mem nl n2 = false ->
         "Found A! Found B!"
           = (pre2 ++ "Found " ++ n2 ++ "!" ++ post2)%string ->
         (String.length pre <= String.length pre2)%nat.
Proof.
  apply (probe_name_leftmost (quiet 0 "Found A! Found B!" 0)
           "Found A! Found B!" "A"); reflexivity.
Defined.

(** X2. The battery level of a reading is the decimal value of the digits
    of the leftmost [Level: <digits>%] of the output. *)
Theorem probe_level_leftmost (w : World) (out : string) (v : Z) :
  headsetcontrol w = Ok out ->
  battery_level (probe w) = Some v ->
  exists pre ds post,
    out = (pre ++ "Level: " ++ ds ++ "%" ++ post)%string
    /\ all_digits ds = true /\ ds <> EmptyString /\ v = decimal ds
    /\ forall pre2 ds2 post2,
         all_digits ds2 = true -> ds2 <> EmptyString ->
         out = (pre2 ++ "Level: " ++ ds2 ++ "%" ++ post2)%string ->
         (String.length pre <= String.length pre2)%nat.
Proof.
  intros Hw Hv.
  destruct (probe_fields w out Hw) as [E|(n & _ & _ & _ & Hl & _)].
  { rewrite E in Hv. discriminate. }
  rewrite Hl in Hv. unfold search_level in Hv.
  destruct (search "Level: " digits_plus_percent out) as [ds|] eqn:Hs;
    [|discriminate].
  injection Hv as <-.
  apply search_leftmost in Hs as (pre & r & -> & Hr & Hleft).
  apply digits_plus_percent_sound in Hr as (Hd & Hne & post & ->).
  exists pre, ds, post. repeat split; trivial.
  intros pre2 [|c ds2] post2 Hd2 Hne2 E; [congruence|].
  apply (Hleft pre2 _ E).
  change (String c ds2 ++ "%" ++ post2)%string
    with (String c ds2 ++ String "%" post2)%string.
  now rewrite digits_plus_percent_complete.
Qed.

Lemma probe_level_leftmost_witness :
  exists pre ds post,
    "Found A! Level: 080% Level: 9%"
      = (pre ++ "Level: " ++ ds ++ "%" ++ post)%string
    /\ all_digits ds = true /\ ds <> EmptyString /\ 80%Z = decimal ds
    /\ forall pre2 ds2 post2,
         all_digits ds2 = true -> ds2 <> EmptyString ->
         "Found A! Level: 080% Level: 9%"
           = (pre2 ++ "Level: " ++ ds2 ++ "%" ++ post2)%string ->
         (String.length pre <= String.length pre2)%nat.
Proof.
  apply (probe_level_leftmost (quiet 0 "Found A! Level: 080% Level: 9%" 0)
           "Found A! Level: 080% Level: 9%" 80%Z); reflexivity.
Defined.

(** X3. With a status text at hand, a reading reports the battery as
    available exactly when it carries a device name and the text contains
    [BATTERY_AVAILABLE]. *)
Theorem probe_available_iff (w : World) (out : string) :
  headsetcontrol w = Ok out ->
  (battery_available (probe w) = true
   <-> device_name (probe w) <> None
       /\ occurs "BATTERY_AVAILABLE" out = true).
Proof.
  intros Hw.
  destruct (probe_fields w out Hw) as [E|(n & _ & Hd & Ha & _)].
  - rewrite E. simpl. split; [discriminate|]. now intros [H _].
  - rewrite Hd, Ha. split; [now split|now intros [_ H]].
Qed.

Lemma probe_available_iff_witness :
  battery_available
    (probe (quiet 0 "Found A! Status: BATTERY_AVAILABLE" 0)) = true
  <-> device_name (probe (quiet 0 "Found A! Status: BATTERY_AVAILABLE" 0))
      <> None
      /\ occurs "BATTERY_AVAILABLE" "Found A! Status: BATTERY_AVAILABLE"
         = true.
Proof.
  apply (probe_available_iff
           (quiet 0 "Found A! Status: BATTERY_AVAILABLE" 0)
           "Found A! Status: BATTERY_AVAILABLE"). reflexivity.
Defined.

(** X4. When the status text has a [Found <name>!] with a one-line name
    and the prober logs no error, the reading carries a device name. *)
Theorem announced_device_is_read (w : World) (out pre name post : string) :
  headsetcontrol w = Ok out ->
  out = (pre ++ "Found " ++ name ++ "!" ++ post)%string ->
  mem nl name = false ->
  fst (check_headset w) = [EvRun status_argv] ->
  device_name (probe w) <> None.
Proof.
  intros Hw Ho Hn Hlog.
  assert (F : search_found out <> None).
  { rewrite Ho. apply search_complete. now apply lazy_until_bang_exists. }
  revert Hlog. unfold probe, check_headset, parse_status.
  rewrite Hw, search_found_strip.
  destruct (search_found out) as [n|]; [|congruence].
  destruct (search_level (strip out)) as [ds|]; simpl;
    [|intros _; discriminate].
  unfold int_of_str. destruct (_ && _); simpl; intros H;
    [discriminate H|discriminate].
Qed.

Lemma announced_device_is_read_witness :
  device_name (probe (quiet 0 "xx Found A! yy" 0)) <> None.
Proof.
  apply (announced_device_is_read (quiet 0 "xx Found A! yy" 0)
           "xx Found A! yy" "xx " "A" " yy"); reflexivity.
Defined.

(** * Further properties of the loop *)

(** ** One iteration, case by case *)

(** An iteration that does not get to a reading (the clock failed, or the
    rate limit applied) leaves the state alone, notifies nothing and runs
    no status command. *)
Lemma iteration_no_reading (w : World) (st : MonitorState) :
  (forall now, clock w = Ok now ->
     (now - last_check st < min_time_between_checks)%Q) ->
  final_state (iteration w st) = st
  /\ notifications (trace (iteration w st)) = []
  /\ forall t0 rest, exists t1,
       probe_times t0 (trace (iteration w st) ++ rest) = probe_times t1 rest.
Proof.
  intros H. unfold iteration, try_block.
  pose proof (notifications_sleep_step w) as Hn.
  pose proof (silent_sleep_step w) as Hs.
  destruct (sleep_step w) as [se ss]. simpl in Hn, Hs.
  destruct (clock w) as [now|e].
  - specialize (H now eq_refl).
    destruct (Qlt_le_dec _ _) as [_|Hle];
      [|exfalso; exact (Qle_not_lt _ _ Hle H)].
    unfold trace, final_state.
    destruct (nap w); simpl; repeat split; trivial;
      intros t0 rest; exists now; trivial.
    now apply probe_times_silent.
  - unfold trace, final_state. simpl. repeat split; trivial.
    intros t0 rest. exists t0. now apply probe_times_silent.
Qed.

(** An iteration that gets to a reading runs the status command once,
    under the clock value it has just read. *)
Lemma iteration_reading_probe (w : World) (st : MonitorState) (now : Q) :
  clock w = Ok now ->
  (min_time_between_checks <= now - last_check st)%Q ->
  forall t0 rest,
    probe_times t0 (trace (iteration w st) ++ rest)
    = now :: probe_times now rest.
Proof.
  intros Hc Hle t0 rest. unfold iteration, try_block. rewrite Hc.
  destruct (Qlt_le_dec _ _) as [Hlt|_];
    [exfalso; exact (Qle_not_lt _ _ Hle Hlt)|].
  pose proof (silent_sleep_step w) as Hs.
  destruct (sleep_step w) as [se ss]. simpl in Hs.
  destruct (silent_check_headset w) as (sil & Hp & Hsil).
  pose proof (silent_transitions w (snd (check_headset w))
    {| last_available := last_available st;
       last_device_name := last_device_name st;
       last_check := now |}) as Hn.
  destruct (check_headset w) as [pe r]. simpl in Hp, Hn. subst pe.
  destruct (transitions _ _ _) as [ne st2]. simpl in Hn.
  unfold trace. simpl. f_equal. rewrite <- !app_assoc.
  now rewrite !probe_times_silent.
Qed.

(** The three things an iteration can do to the notifications and to the
    two variables the transitions use. *)
Lemma iteration_cases (w : World) (st : MonitorState) :
  let o := iteration w st in
  (notifications (trace o) = []
   /\ last_available (final_state o) = last_available st
   /\ last_device_name (final_state o) = last_device_name st)
  \/ (last_available st = false
      /\ battery_available (probe w) = true
      /\ notifications (trace o)
         = [(on_title,
             on_message (device_name (probe w)) (battery_level (probe w)))]
      /\ last_available (final_state o) = true
      /\ last_device_name (final_state o) = device_name (probe w))
  \/ (last_available st = true
      /\ battery_available (probe w) = false
      /\ truthy (device_name (probe w)) = true
      /\ notifications (trace o)
         = [(off_title, off_message (last_device_name st))]
      /\ last_available (final_state o) = false
      /\ last_device_name (final_state o) = last_device_name st).
Proof.
  intros o. subst o.
  assert (N : (forall now, clock w = Ok now ->
                 (now - last_check st < min_time_between_checks)%Q)
              \/ exists now, clock w = Ok now
                   /\ (min_time_between_checks <= now - last_check st)%Q).
  { destruct (clock w) as [now|e]; [|left; discriminate].
    destruct (Qlt_le_dec (now - last_check st) min_time_between_checks);
      [left; now intros ? [= <-] | right; now exists now]. }
  destruct N as [N|(now & Hc & Hle)].
  - left. destruct (iteration_no_reading w st N) as (-> & -> & _). auto.
  - destruct (iteration_with_reading w st now Hc Hle) as (Hn & Ha & Hd & _).
    rewrite Hn, Ha, Hd. unfold transitions.
    destruct (last_available st) eqn:Hla; cbn [negb andb].
    + destruct (battery_available (probe w)) eqn:Hb; cbn [negb andb].
      * left. cbn [fst snd]. now rewrite Hla.
      * destruct (truthy (device_name (probe w))) eqn:Ht;
          cbn [fst snd last_available last_device_name].
        -- right. right. now rewrite notifications_send.
        -- left. now rewrite Hla.
    + destruct (battery_available (probe w)) eqn:Hb;
        cbn [fst snd last_available last_device_name].
      * right. left. now rewrite notifications_send.
      * left. now rewrite Hla.
Qed.

Lemma probe_available_named (w : World) :
  battery_available (probe w) = true ->
  exists n, device_name (probe w) = Some n.
Proof.
  unfold probe, check_headset, parse_status.
  destruct (headsetcontrol w) as [out|[m|m]]; simpl; try discriminate.
  destruct (search_found (strip out)) as [n|]; simpl; [|discriminate].
  destruct (search_level (strip out)); simpl; [|now exists n].
  unfold int_of_str. destruct (_ && _); simpl; [discriminate|now exists n].
Qed.

(** ** A failed probe is not a disconnect *)

(** X5. When the status command cannot be run, the reading is
    [(None, None, False)] and the iteration changes neither
    [last_available] nor [last_device_name] and notifies nothing, also
    while CONNECTED: a failed probe is never taken for a power-down. *)
Theorem failed_probe_is_silent (w : World) (st : MonitorState) (e : exn) :
  headsetcontrol w = Raise e ->
  probe w = no_reading
  /\ notifications (trace (iteration w st)) = []
  /\ last_available (final_state (iteration w st)) = last_available st
  /\ last_device_name (final_state (iteration w st)) = last_device_name st.
Proof.
  intros Hw.
  assert (P : probe w = no_reading).
  { unfold probe, check_headset. rewrite Hw. now destruct e. }
  split; [exact P|].
  destruct (iteration_cases w st)
    as [H|[(_ & Hb & _)|(_ & _ & Ht & _)]]; [exact H| |];
    rewrite P in *; discriminate.
Qed.

Lemma failed_probe_is_silent_witness :
  let w := {| clock := Ok 1%Q; nap := Ok tt;
              headsetcontrol := Raise (OtherException "No such file");
              max_str_digits := 4300; notify_send := Ok tt; cpu := Ok 0%Q;
              sleep := Ok tt |} in
  let st := {| last_available := true; last_device_name := Some "A";
               last_check := 0 |} in
  probe w = no_reading
  /\ notifications (trace (iteration w st)) = []
  /\ last_available (final_state (iteration w st)) = last_available st
  /\ last_device_name (final_state (iteration w st)) = last_device_name st.
Proof.
  apply (failed_probe_is_silent
           {| clock := Ok 1%Q; nap := Ok tt;
              headsetcontrol := Raise (OtherException "No such file");
              max_str_digits := 4300; notify_send := Ok tt; cpu := Ok 0%Q;
              sleep := Ok tt |}
           {| last_available := true; last_device_name := Some "A";
              last_check := 0 |} (OtherException "No such file")).
  reflexivity.
Defined.

(** ** A lost notification is not sent again *)

Lemma notify_outcome_irrelevant (r : result unit) (w : World)
    (st : MonitorState) :
  final_state (iteration (with_notify_send r w) st)
    = final_state (iteration w st)
  /\ final_status (iteration (with_notify_send r w) st)
     = final_status (iteration w st)
  /\ notifications (trace (iteration (with_notify_send r w) st))
     = notifications (trace (iteration w st)).
Proof.
  unfold iteration, try_block.
  change (clock (with_notify_send r w)) with (clock w).
  change (nap (with_notify_send r w)) with (nap w).
  change (check_headset (with_notify_send r w)) with (check_headset w).
  change (sleep_step (with_notify_send r w)) with (sleep_step w).
  pose proof (notifications_sleep_step w) as Hs.
  destruct (sleep_step w) as [se ss]. simpl in Hs.
  destruct (clock w) as [now|e]; [|now repeat split].
  destruct (Qlt_le_dec _ _); [destruct (nap w); now repeat split|].
  destruct (check_headset w) as [pe rd].
  unfold transitions. cbn [last_available last_device_name last_check].
  destruct (_ && _).
  - unfold trace, final_state, final_status. simpl.
    rewrite !notifications_app, !notifications_send. now repeat split.
  - destruct (_ && _); unfold trace, final_state, final_status; simpl;
      rewrite ?notifications_app, ?notifications_send; now repeat split.
Qed.

Lemma notify_failure_logged (e : exn) (w : World) (st : MonitorState)
    (title message : string) :
  In (title, message)
    (notifications (trace (iteration (with_notify_send (Raise e) w) st))) ->
  exists pre post,
    trace (iteration (with_notify_send (Raise e) w) st)
    = pre ++ EvRun (notify_argv title message)
         :: EvLog ERROR ("Error sending notification: "
                         ++ str_of_exn e)%string
         :: post.
Proof.
  unfold iteration, try_block.
  change (clock (with_notify_send (Raise e) w)) with (clock w).
  change (nap (with_notify_send (Raise e) w)) with (nap w).
  change (check_headset (with_notify_send (Raise e) w))
    with (check_headset w).
  change (sleep_step (with_notify_send (Raise e) w)) with (sleep_step w).
  pose proof (notifications_sleep_step w) as Hs.
  destruct (sleep_step w) as [se ss]. simpl in Hs.
  pose proof (notifications_check_headset w) as Hp.
  destruct (clock w) as [now|e0].
  - destruct (Qlt_le_dec _ _).
    + destruct (nap w); unfold trace; simpl; rewrite ?Hs; intros [].
    + destruct (check_headset w) as [pe rd]. simpl in Hp.
      unfold transitions, send_notification.
      cbn [notify_send with_notify_send last_available last_device_name
           last_check].
      destruct (_ && _).
      * unfold trace. simpl. rewrite !notifications_app, Hp, Hs. simpl.
        intros [[= <- <-]|[]]. exists (EvTime now :: pe), se.
        simpl. now rewrite <- app_assoc.
      * destruct (_ && _); unfold trace; simpl;
          rewrite !notifications_app, Hp, Hs; simpl.
        -- intros [[= <- <-]|[]]. exists (EvTime now :: pe), se.
           simpl. now rewrite <- app_assoc.
        -- intros [].
  - unfold trace. simpl. rewrite Hs. intros [].
Qed.

(** X6. Whether [notify-send] succeeds or fails makes no difference to the
    state the iteration leaves, to the notifications it attempts or to
    whether the loop goes on; and when it fails, every notification the
    iteration attempted is followed at once by the error line
    [Error sending notification: ...] in the trace.  A notification that
    could not be delivered is logged and dropped, and the transition
    counts as done. *)
Theorem notify_failure_is_dropped (r : result unit) (w : World)
    (st : MonitorState) :
  final_state (iteration (with_notify_send r w) st)
    = final_state (iteration w st)
  /\ final_status (iteration (with_notify_send r w) st)
     = final_status (iteration w st)
  /\ notifications (trace (iteration (with_notify_send r w) st))
     = notifications (trace (iteration w st))
  /\ (forall e title message, r = Raise e ->
      In (title, message) (notifications (trace (iteration w st))) ->
      exists pre post,
        trace (iteration (with_notify_send r w) st)
        = pre ++ EvRun (notify_argv title message)
             :: EvLog ERROR ("Error sending notification: "
                             ++ str_of_exn e)%string
             :: post).
Proof.
  destruct (notify_outcome_irrelevant r w st) as (H1 & H2 & H3).
  repeat split; trivial.
  intros e title message -> Hin. apply notify_failure_logged.
  now rewrite H3.
Qed.

Lemma notify_failure_is_dropped_witness :
  final_state
    (iteration (no_notify_send 1 "Found A! BATTERY_AVAILABLE")
       initial_state)
  = final_state
      (iteration (quiet 1 "Found A! BATTERY_AVAILABLE" 0) initial_state)
  /\ exists pre post,
       trace (iteration (no_notify_send 1 "Found A! BATTERY_AVAILABLE")
                initial_state)
       = pre ++ EvRun (notify_argv on_title (on_message (Some "A") None))
            :: EvLog ERROR
                 "Error sending notification: No such file: notify-send"
            :: post.
Proof.
  destruct (notify_failure_is_dropped
              (Raise (OtherException "No such file: notify-send"))
              (quiet 1 "Found A! BATTERY_AVAILABLE" 0) initial_state)
    as (H1 & _ & _ & H4).
  split; [exact H1|].
  apply (H4 (OtherException "No such file: notify-send")
            on_title (on_message (Some "A") None) eq_refl).
  left. reflexivity.
Defined.

(** ** The order and the wording of notifications *)

Lemma well_named_adjacent t1 m1 t2 m2 post : forall pre cur,
  well_named cur (pre ++ (t1, m1) :: (t2, m2) :: post) -> t1 <> t2.
Proof.
  induction pre as [|[t m] pre IH]; intros cur H; simpl in H.
  - destruct cur as [name|].
    + destruct H as (-> & _ & n & l & -> & _). discriminate.
    + destruct H as (n & l & -> & _ & -> & _). discriminate.
  - destruct cur as [name|].
    + destruct H as (_ & _ & H). now apply IH in H.
    + destruct H as (n & l & _ & _ & H). now apply IH in H.
Qed.

(** X7. In a run of [main] the notifications alternate: the first one,
    when there is one, is "Headset Turned On", and two notifications in a
    row never have the same title. *)
Theorem titles_alternate (ws : list World) :
  (forall t m rest,
     notifications (trace (main ws)) = (t, m) :: rest -> t = on_title)
  /\ (forall pre t1 m1 t2 m2 post,
        notifications (trace (main ws))
        = pre ++ (t1, m1) :: (t2, m2) :: post ->
        t1 <> t2).
Proof.
  pose proof (run_well_named ws initial_state) as H.
  unfold main. destruct (run ws initial_state) as [[evs st'] s].
  unfold trace in *. simpl in H |- *. split.
  - intros t m rest E. rewrite E in H. simpl in H.
    now destruct H as (n & l & -> & _).
  - intros pre t1 m1 t2 m2 post E. rewrite E in H.
    now apply well_named_adjacent in H.
Qed.

Lemma titles_alternate_witness :
  on_title = on_title /\ off_title <> on_title.
Proof.
  destruct (titles_alternate
              [quiet 1 "Found A! BATTERY_AVAILABLE Level: 80%" 0;
               quiet 2 "Found B!" 0;
               quiet 3 "Found B! BATTERY_AVAILABLE" 30]) as [H1 H2].
  split.
  - exact (H1 on_title (on_message (Some "A") (Some 80%Z))
             [(off_title, off_message (Some "A"));
              (on_title, on_message (Some "B") None)] eq_refl).
  - exact (H2 [(on_title, on_message (Some "A") (Some 80%Z))]
             off_title (off_message (Some "A"))
             on_title (on_message (Some "B") None) [] eq_refl).
Defined.

(** With a single notification, that one is a "Turned On". *)
Example first_notification_alone :
  notifications (trace (main [quiet 1 "Found A! BATTERY_AVAILABLE" 0]))
  = [(on_title, on_message (Some "A") None)].
Proof. reflexivity. Qed.

Lemma run_connected_named : forall ws st,
  (last_available st = true -> last_device_name st <> None) ->
  last_available (final_state (run ws st)) = true ->
  last_device_name (final_state (run ws st)) <> None.
Proof.
  induction ws as [|w ws IH]; intros st Inv; [exact Inv|].
  cbn [run]. pose proof (iteration_cases w st) as H.
  destruct (iteration w st) as [[evs st'] s].
  unfold trace, final_state in *. simpl in H.
  assert (Inv' : last_available st' = true -> last_device_name st' <> None).
  { destruct H as [(_ & -> & ->)
                  |[(_ & Hb & _ & _ & ->)|(_ & _ & _ & _ & -> & _)]].
    - exact Inv.
    - intros _. destruct (probe_available_named w Hb) as (n & ->).
      discriminate.
    - discriminate. }
  destruct s as [|e]; [|exact Inv'].
  specialize (IH st' Inv'). now destruct (run ws st') as [[evs' st''] s'].
Qed.

(** X8. After any run of [main], a CONNECTED loop holds a non-null
    [last_device_name].  So whatever the next iteration notifies is built
    from a non-null value: a "Headset Turned On" from the non-null
    [device_name] of the fresh reading, a "Headset Turned Off" from the
    non-null [last_device_name]. *)
Theorem connected_has_device_name (ws : list World) (w : World) :
  let st := final_state (main ws) in
  (last_available st = true -> last_device_name st <> None)
  /\ (forall title msg,
        In (title, msg) (notifications (trace (iteration w st))) ->
        (title = on_title
         /\ msg = on_message (device_name (probe w))
                    (battery_level (probe w))
         /\ device_name (probe w) <> None)
        \/ (title = off_title
            /\ msg = off_message (last_device_name st)
            /\ last_device_name st <> None)).
Proof.
  intros st.
  assert (Inv : last_available st = true -> last_device_name st <> None).
  { subst st. unfold main.
    pose proof (run_connected_named ws initial_state) as H.
    destruct (run ws initial_state) as [[evs st'] s].
    apply H. discriminate. }
  split; [exact Inv|]. intros title msg.
  destruct (iteration_cases w st)
    as [(-> & _)|[(_ & Hb & -> & _)|(Hla & _ & _ & -> & _)]].
  - intros [].
  - intros [[= <- <-]|[]]. left. repeat split.
    destruct (probe_available_named w Hb) as (n & ->). discriminate.
  - intros [[= <- <-]|[]]. right. repeat split. now apply Inv.
Qed.

Lemma connected_has_device_name_witness :
  Some "A" <> @None string
  /\ ((off_title = on_title
       /\ off_message (Some "A")
          = on_message (device_name (probe (quiet 2 "Found B!" 0)))
              (battery_level (probe (quiet 2 "Found B!" 0)))
       /\ device_name (probe (quiet 2 "Found B!" 0)) <> None)
      \/ (off_title = off_title
          /\ off_message (Some "A") = off_message (Some "A")
          /\ Some "A" <> @None string)).
Proof.
  destruct (connected_has_device_name
              [quiet 1 "Found A! BATTERY_AVAILABLE" 0]
              (quiet 2 "Found B!" 0)) as [H1 H2].
  split; [exact (H1 eq_refl)|].
  apply (H2 off_title (off_message (Some "A"))). left. reflexivity.
Defined.

(** ** How the loop can end *)

Lemma iteration_crash (w : World) (st : MonitorState) (e : exn) :
  final_status (iteration w st) = Crashed e ->
  cpu w = Raise e \/ (exists c, cpu w = Ok c /\ sleep w = Raise e).
Proof.
  unfold iteration, sleep_step, adaptive_sleep, get_cpu_percent.
  destruct (try_block w st) as [[evs st'] fl].
  destruct (cpu w) as [c|e'].
  - destruct (Qlt_le_dec 20 c); destruct (sleep w) as [u|e1]; destruct fl;
      unfold final_status; simpl; try discriminate;
      intros [= <-]; right; now exists c.
  - destruct fl; unfold final_status; simpl; try discriminate;
      intros [= <-]; now left.
Qed.

(** X9. An exception can leave [main] only from the two statements after
    the [try] statement: when a run ends with an exception, that exception
    was raised by the CPU sampling or by the sleep that follows it. *)
Theorem crash_only_after_try (ws : list World) (st : MonitorState)
    (e : exn) :
  final_status (run ws st) = Crashed e ->
  exists w, In w ws
    /\ (cpu w = Raise e \/ (exists c, cpu w = Ok c /\ sleep w = Raise e)).
Proof.
  revert st. induction ws as [|w ws IH]; intros st H; [discriminate|].
  cbn [run] in H. pose proof (iteration_crash w st) as Hc.
  destruct (iteration w st) as [[evs st'] s]. unfold final_status in *.
  simpl in Hc. destruct s as [|e'].
  - specialize (IH st'). destruct (run ws st') as [[evs' st''] s'].
    simpl in *. destruct (IH H) as (w' & Hin & Hw').
    exists w'. split; [now right|exact Hw'].
  - simpl in H. injection H as ->. exists w. split; [now left|].
    now apply Hc.
Qed.

Lemma crash_only_after_try_witness :
  exists w, In w [quiet 1 "" 0; no_cpu 2; quiet 3 "" 0]
    /\ (cpu w = Raise (OtherException "cannot read /proc/stat")
        \/ (exists c, cpu w = Ok c
              /\ sleep w = Raise (OtherException "cannot read /proc/stat"))).
Proof.
  apply (crash_only_after_try [quiet 1 "" 0; no_cpu 2; quiet 3 "" 0]
           initial_state (OtherException "cannot read /proc/stat")).
  reflexivity.
Defined.

(** ** The clock *)

(** X10. [time.time()] is the wall clock.  While it reads less than
    [last_check + 0.1] (for instance after it was set back), the loop runs
    no status command, sends no notification and keeps its state, however
    many iterations pass. *)
Theorem clock_behind_no_probe (ws : list World) (st : MonitorState)
    (t0 : Q) :
  (forall w, In w ws ->
     exists now, clock w = Ok now
       /\ (now - last_check st < min_time_between_checks)%Q) ->
  final_state (run ws st) = st
  /\ notifications (trace (run ws st)) = []
  /\ probe_times t0 (trace (run ws st)) = [].
Proof.
  revert t0. induction ws as [|w ws IH]; intros t0 H; [now repeat split|].
  cbn [run].
  assert (N : forall now, clock w = Ok now ->
                (now - last_check st < min_time_between_checks)%Q).
  { destruct (H w (or_introl eq_refl)) as (now & Hc & Hlt).
    intros now' E. rewrite Hc in E. now injection E as <-. }
  destruct (iteration_no_reading w st N) as (Hst & Hn & Hp).
  destruct (Hp t0 (trace (run ws st))) as (t1 & Hp1).
  destruct (Hp t0 []) as (t2 & Hp2). rewrite app_nil_r in Hp2.
  destruct (iteration w st) as [[evs st'] s].
  unfold trace, final_state in *. simpl in Hst, Hn, Hp1, Hp2. subst st'.
  destruct s as [|e].
  - specialize (IH t1 (fun w' Hin => H w' (or_intror Hin))).
    destruct (run ws st) as [[evs' st''] s']. simpl in *.
    destruct IH as (-> & Hn' & Hp').
    now rewrite notifications_app, Hn, Hn', Hp1, Hp'.
  - simpl. now rewrite Hn, Hp2.
Qed.

Lemma clock_behind_no_probe_witness :
  let st := {| last_available := true; last_device_name := Some "A";
               last_check := 1000 |} in
  let ws := [quiet 900 "Found A!" 0; quiet 950 "Found A!" 50;
             quiet (10000999 # 10000) "Found A!" 0] in
  final_state (run ws st) = st
  /\ notifications (trace (run ws st)) = []
  /\ probe_times 0 (trace (run ws st)) = [].
Proof.
  apply (clock_behind_no_probe
           [quiet 900 "Found A!" 0; quiet 950 "Found A!" 50;
            quiet (10000999 # 10000) "Found A!" 0]
           {| last_available := true; last_device_name := Some "A";
              last_check := 1000 |} 0).
  intros w [<-|[<-|[<-|[]]]];
    [exists 900%Q | exists 950%Q | exists (10000999 # 10000)%Q];
    split; reflexivity.
Defined.

Lemma last_cons_default {A : Type} (x d : A) (l : list A) :
  last (x :: l) d = last l x.
Proof.
  revert x d. induction l as [|y l IH]; intros x d; [reflexivity|].
  change (last (x :: y :: l) d) with (last (y :: l) d).
  now rewrite !IH.
Qed.

Lemma run_last_check : forall ws st t0,
  last_check (final_state (run ws st))
  = last (probe_times t0 (trace (run ws st))) (last_check st).
Proof.
  induction ws as [|w ws IH]; intros st t0; [reflexivity|].
  cbn [run].
  destruct (iteration_probe_times w st t0 (trace (run ws
              (final_state (iteration w st))))) as (t1 & H).
  destruct (iteration_probe_times w st t0 []) as (t1' & H').
  rewrite app_nil_r in H'.
  destruct (iteration w st) as [[evs st'] s]. unfold trace, final_state in *.
  simpl in H, H'.
  destruct s as [|e].
  - specialize (IH st' t1). destruct (run ws st') as [[evs' st''] s'].
    simpl in *. destruct H as [[-> Hl]|[-> _]].
    + now rewrite <- Hl.
    + now rewrite last_cons_default.
  - simpl. destruct H' as [[-> Hl]|[-> _]]; [exact Hl|reflexivity].
Qed.

(** X13. [last_check] is the clock value of the latest probe: after any
    run of [main] it equals the last of the probe times, and is still 0
    when no probe was made. *)
Theorem last_check_is_last_probe (ws : list World) :
  last_check (final_state (main ws))
  = last (probe_times 0 (trace (main ws))) 0%Q.
Proof.
  pose proof (run_last_check ws initial_state 0) as H.
  unfold main. destruct (run ws initial_state) as [[evs st] s].
  exact H.
Qed.

(** ** Probes, notifications and sleeps, counted *)

Lemma iteration_counts (w : World) (st : MonitorState) :
  forall t0 rest, exists t1 ps,
    probe_times t0 (trace (iteration w st) ++ rest)
      = ps ++ probe_times t1 rest
    /\ (length (notifications (trace (iteration w st))) <= length ps)%nat
    /\ (length ps <= 1)%nat.
Proof.
  intros t0 rest.
  assert (N : (forall now, clock w = Ok now ->
                 (now - last_check st < min_time_between_checks)%Q)
              \/ exists now, clock w = Ok now
                   /\ (min_time_between_checks <= now - last_check st)%Q).
  { destruct (clock w) as [now|e]; [|left; discriminate].
    destruct (Qlt_le_dec (now - last_check st) min_time_between_checks);
      [left; now intros ? [= <-] | right; now exists now]. }
  destruct N as [N|(now & Hc & Hle)].
  - destruct (iteration_no_reading w st N) as (_ & Hn & Hp).
    destruct (Hp t0 rest) as (t1 & Hp1).
    exists t1, []. rewrite Hn. simpl. auto.
  - exists now, [now].
    rewrite (iteration_reading_probe w st now Hc Hle). split; [reflexivity|].
    split; [|simpl; lia].
    destruct (iteration_cases w st)
      as [(-> & _)|[(_ & _ & -> & _)|(_ & _ & _ & -> & _)]]; simpl; lia.
Qed.

Lemma run_counts : forall ws st t0,
  (length (notifications (trace (run ws st)))
   <= length (probe_times t0 (trace (run ws st))))%nat
  /\ (length (probe_times t0 (trace (run ws st))) <= length ws)%nat.
Proof.
  induction ws as [|w ws IH]; intros st t0; [simpl; lia|].
  cbn [run].
  destruct (iteration_counts w st t0 (trace (run ws
              (final_state (iteration w st))))) as (t1 & ps & H & Hn & Hp).
  destruct (iteration_counts w st t0 []) as (t1' & ps' & H' & Hn' & Hp').
  rewrite app_nil_r in H'. simpl in H'. rewrite app_nil_r in H'.
  destruct (iteration w st) as [[evs st'] s]. unfold trace, final_state in *.
  simpl in H, H', Hn, Hn'.
  destruct s as [|e].
  - specialize (IH st' t1). destruct (run ws st') as [[evs' st''] s'].
    simpl in *. rewrite H, notifications_app, !length_app. lia.
  - simpl. rewrite H'. lia.
Qed.

(** X14. A run of [main] over [n] iterations runs the status command at
    most [n] times, and sends at most as many notifications as it made
    probes: no iteration probes twice, and none notifies without having
    probed. *)
Theorem notifications_le_probes_le_iterations (ws : list World) :
  (length (notifications (trace (main ws)))
   <= length (probe_times 0 (trace (main ws))))%nat
  /\ (length (probe_times 0 (trace (main ws))) <= length ws)%nat.
Proof.
  pose proof (run_counts ws initial_state 0) as H.
  unfold main. destruct (run ws initial_state) as [[evs st] s].
  exact H.
Qed.

Lemma sleeps_app tr1 tr2 : sleeps (tr1 ++ tr2) = sleeps tr1 ++ sleeps tr2.
Proof.
  induction tr1 as [|e tr1 IH]; [reflexivity|].
  destruct e; simpl; now rewrite IH.
Qed.

Lemma sleeps_check_headset w : sleeps (fst (check_headset w)) = [].
Proof.
  unfold check_headset.
  destruct (match headsetcontrol w with
            | Ok stdout => parse_status (max_str_digits w) stdout
            | Raise e => Raise e
            end) as [r|[m|m]]; reflexivity.
Qed.

Lemma sleeps_transitions w r st : sleeps (fst (transitions w r st)) = [].
Proof.
  unfold transitions, send_notification.
  destruct (_ && _); [now destruct (notify_send w)|].
  destruct (_ && _); [now destruct (notify_send w)|reflexivity].
Qed.

Lemma iteration_sleeps (w : World) (st : MonitorState) :
  Forall loop_duration (sleeps (trace (iteration w st)))
  /\ (final_status (iteration w st) = Running ->
      (1 <= length (sleeps (trace (iteration w st))))%nat).
Proof.
  unfold iteration, try_block.
  assert (S : Forall loop_duration (sleeps (fst (sleep_step w)))
              /\ (snd (sleep_step w) = Running ->
                  (1 <= length (sleeps (fst (sleep_step w))))%nat)).
  { unfold sleep_step, adaptive_sleep, get_cpu_percent, loop_duration.
    destruct (cpu w) as [c|e]; [|split; [constructor|discriminate]].
    destruct (Qlt_le_dec 20 c); simpl; split; auto. }
  destruct (sleep_step w) as [se ss]. simpl in S. destruct S as [S1 S2].
  destruct (clock w) as [now|e].
  - destruct (Qlt_le_dec _ _).
    + unfold trace, final_status.
      destruct (nap w); simpl; rewrite ?sleeps_app; simpl; split;
        try (intros; lia); constructor; unfold loop_duration; auto.
    + pose proof (sleeps_check_headset w) as Hp.
      destruct (check_headset w) as [pe r]. simpl in Hp.
      match goal with |- context [transitions w r ?s] =>
        pose proof (sleeps_transitions w r s) as Hn;
        destruct (transitions w r s) as [ne st2] end.
      simpl in Hn. unfold trace, final_status. simpl.
      rewrite !sleeps_app, Hp, Hn. simpl. auto.
  - unfold trace, final_status. simpl. auto.
Qed.

Lemma run_sleeps : forall ws st,
  Forall loop_duration (sleeps (trace (run ws st)))
  /\ (final_status (run ws st) = Running ->
      (length ws <= length (sleeps (trace (run ws st))))%nat).
Proof.
  induction ws as [|w ws IH]; intros st; [split; [constructor|simpl; lia]|].
  cbn [run]. destruct (iteration_sleeps w st) as [F L].
  destruct (iteration w st) as [[evs st'] s].
  unfold trace, final_status in *. simpl in F, L.
  destruct s as [|e].
  - specialize (IH st'). destruct (run ws st') as [[evs' st''] s'].
    simpl in *. destruct IH as [F' L']. rewrite sleeps_app, length_app.
    split; [now apply Forall_app|].
    intros Hs. specialize (L eq_refl). specialize (L' Hs). lia.
  - simpl. split; [exact F|discriminate].
Qed.

(** X11. The loop only ever sleeps 10 ms (rate limit), 0.1 s or 0.5 s
    (adaptive sleep). *)
Theorem sleep_durations (ws : list World) (d : Q) :
  In d (sleeps (trace (main ws))) ->
  d = (1 # 100)%Q \/ d = (1 # 10)%Q \/ d = (1 # 2)%Q.
Proof.
  intros Hin. destruct (run_sleeps ws initial_state) as [F _].
  unfold main in Hin. destruct (run ws initial_state) as [[evs st] s].
  unfold trace in *. simpl in Hin, F.
  rewrite Forall_forall in F. exact (F d Hin).
Qed.

Lemma sleep_durations_witness :
  (1 # 2)%Q = (1 # 100)%Q \/ (1 # 2)%Q = (1 # 10)%Q
  \/ (1 # 2)%Q = (1 # 2)%Q.
Proof.
  apply (sleep_durations [quiet 1 "" 30]). simpl. left. reflexivity.
Defined.

(** X12. The loop never spins: every iteration that comes to its end has
    slept at least once, so a run of [n] iterations that is still going
    has slept at least [n] times. *)
Theorem no_busy_loop (ws : list World) :
  final_status (main ws) = Running ->
  (length ws <= length (sleeps (trace (main ws))))%nat.
Proof.
  intros H. destruct (run_sleeps ws initial_state) as [_ L].
  unfold main in *. destruct (run ws initial_state) as [[evs st] s].
  unfold trace, final_status in *. simpl in *. auto.
Qed.

Lemma no_busy_loop_witness :
  (length [quiet 1 "" 0; quiet 1 "" 0; no_clock 30]
   <= length (sleeps (trace (main [quiet 1 "" 0; quiet 1 "" 0;
                                   no_clock 30]))))%nat.
Proof.
  apply (no_busy_loop [quiet 1 "" 0; quiet 1 "" 0; no_clock 30]).
  reflexivity.
Defined.

(** ** Distance between probes *)

Lemma spaced_adjacent t1 t2 post : forall pre lb,
  spaced lb (pre ++ t1 :: t2 :: post) ->
  (t1 + min_time_between_checks <= t2)%Q.
Proof.
  induction pre as [|t pre IH]; intros lb H; simpl in H.
  - now destruct H as (_ & H & _).
  - destruct H as (_ & H). now apply IH in H.
Qed.

(** X15. Two probes in a row are at least 0.1 s apart by the clock values
    the loop read, whatever the clock does in between; in particular the
    probe times of a run strictly increase. *)
Theorem successive_probes_apart (ws : list World) (pre post : list Q)
    (t1 t2 : Q) :
  probe_times 0 (trace (main ws)) = pre ++ t1 :: t2 :: post ->
  (t1 + min_time_between_checks <= t2)%Q /\ (t1 < t2)%Q.
Proof.
  intros Hp. pose proof (run_spaced ws initial_state 0) as H.
  unfold main in Hp. destruct (run ws initial_state) as [[evs st] s].
  unfold trace in *. simpl in Hp, H. rewrite Hp in H.
  apply spaced_adjacent in H. split; [exact H|].
  unfold min_time_between_checks in H. lra.
Qed.

Lemma successive_probes_apart_witness :
  (1000 + min_time_between_checks <= 10001 # 10)%Q
  /\ (1000 < 10001 # 10)%Q.
Proof.
  apply (successive_probes_apart
           [quiet 1000 "" 0; quiet (100005 # 100) "" 0;
            quiet (10001 # 10) "" 0] [] []).
  reflexivity.
Defined.
